(** * Gaussian-process prediction utilities of safe-exploration

    A shallow embedding of

    - [gp_ellipsoidal_reachability/gp_models_utils_casadi.py]: the casadi
      kernels ([_k_rbf], [_k_lin], [_k_prod_lin_rbf]), [gp_pred],
      [_get_kernel_function] and [gp_pred_function];
    - [safe_exploration/ssm_pytorch/gaussian_process.py]:
      [MultiOutputGP.set_train_data] and the functions [predict],
      [linearize_predict] and [_compute_hessian_mean] written under
      [GPytorchSSM].

    Numbers are exact reals ([R]): rounding of machine floats is not part of
    the model.  A casadi [SX] matrix is a shape with an entry function; the
    casadi operations raise on a dimension mismatch, as the library does, and
    Python exceptions are threaded through an error monad. *)

From Stdlib Require Import Reals Lra Lia FunctionalExtensionality.
From stdpp Require Import gmap strings list.

Local Open Scope R_scope.

(** ** Python exceptions and the error monad *)

Inductive exn : Type :=
| ValueError (msg : string)
| KeyError (key : string)
| IndexError (msg : string)
| NameError (name : string)
| TypeError (msg : string)
| RuntimeError (msg : string)
| NotImplementedError (msg : string).

Inductive result (A : Type) : Type :=
| Ok (a : A)
| Raise (e : exn).

Arguments Ok {A} a.
Arguments Raise {A} e.

Definition bind {A B : Type} (c : result A) (k : A -> result B) : result B :=
  match c with
  | Ok a => k a
  | Raise e => Raise e
  end.

Declare Scope py_scope.
Delimit Scope py_scope with py.
Notation "'do' x <- c ; k" := (bind c (fun x => k))
  (at level 10, x name, c at level 100, k at level 200) : py_scope.
Local Open Scope py_scope.

(** [l[i]] on a Python list: [IndexError] out of range. *)
Definition py_index {A : Type} (l : list A) (i : nat) : result A :=
  match l !! i with
  | Some a => Ok a
  | None => Raise (IndexError "list index out of range")
  end.

(** ** The casadi layer: [SX] matrices and the operations the module imports *)

Module Casadi.

Record SX : Type := mkSX { nrow : nat; ncol : nat; elt : nat -> nat -> R }.

(** [x.shape] and [np.shape(x)]. *)
Definition shape (x : SX) : nat * nat := (nrow x, ncol x).

Definition is_scalar (x : SX) : bool :=
  Nat.eqb (nrow x) 1 && Nat.eqb (ncol x) 1.

Definition is_empty (x : SX) : bool :=
  Nat.eqb (nrow x) 0 || Nat.eqb (ncol x) 0.

Definition same_shape (x y : SX) : bool :=
  Nat.eqb (nrow x) (nrow y) && Nat.eqb (ncol x) (ncol y).

(** [sum_{k < n} f k]. *)
Fixpoint rsum (n : nat) (f : nat -> R) : R :=
  match n with
  | O => 0
  | S k => rsum k f + f k
  end.

(** [SX(v)] for a number [v]: a 1 x 1 matrix. *)
Definition SX_num (v : R) : SX := mkSX 1 1 (fun _ _ => v).

(** [ret[:] = v]: every entry is overwritten, the shape stays. *)
Definition set_all (x : SX) (v : R) : SX := mkSX (nrow x) (ncol x) (fun _ _ => v).

(** The Python list [[]] where casadi expects a matrix. *)
Definition SX_empty : SX := mkSX 0 0 (fun _ _ => 0).

(** A vector of numbers reshaped with [reshape(1,-1)]: one row. *)
Definition row_vector (l : list R) : SX :=
  mkSX 1 (length l) (fun _ j => nth j l 0).

(** Rows given as lists; used for concrete inputs. *)
Definition of_rows (c : nat) (rows : list (list R)) : SX :=
  mkSX (length rows) c (fun i j => nth j (nth i rows []) 0).

Definition map1 (f : R -> R) (x : SX) : SX :=
  mkSX (nrow x) (ncol x) (fun i j => f (elt x i j)).

(** [exp], [sqrt], [x**2] and [c * x] for a Python float [c]. *)
Definition SX_exp : SX -> SX := map1 exp.
Definition SX_sqrt : SX -> SX := map1 sqrt.
Definition sq : SX -> SX := map1 (fun v => v * v).
Definition scale (c : R) : SX -> SX := map1 (fun v => c * v).

(** [repmat(x, n, m)]: [n] copies down and [m] copies across. *)
Definition repmat (x : SX) (n m : nat) : SX :=
  mkSX (n * nrow x) (m * ncol x)
       (fun i j => elt x (i mod nrow x)%nat (j mod ncol x)%nat).

(** Elementwise binary operations: a 1 x 1 operand is broadcast; two
    operands of one shape are combined entry by entry; with equal numbers
    of rows, an operand whose number of columns divides that of the other
    is repeated across; anything else is a dimension mismatch. *)
Definition binop (f : R -> R -> R) (x y : SX) : result SX :=
  if is_scalar x then
    Ok (mkSX (nrow y) (ncol y) (fun i j => f (elt x 0%nat 0%nat) (elt y i j)))
  else if is_scalar y then
    Ok (mkSX (nrow x) (ncol x) (fun i j => f (elt x i j) (elt y 0%nat 0%nat)))
  else if same_shape x y then
    Ok (mkSX (nrow x) (ncol x) (fun i j => f (elt x i j) (elt y i j)))
  else if Nat.eqb (nrow x) (nrow y) && Nat.eqb (ncol x mod ncol y) 0 then
    let y' := repmat y 1 (ncol x / ncol y) in
    Ok (mkSX (nrow x) (ncol x) (fun i j => f (elt x i j) (elt y' i j)))
  else if Nat.eqb (nrow x) (nrow y) && Nat.eqb (ncol y mod ncol x) 0 then
    let x' := repmat x 1 (ncol y / ncol x) in
    Ok (mkSX (nrow y) (ncol y) (fun i j => f (elt x' i j) (elt y i j)))
  else Raise (RuntimeError "Dimension mismatch").

Definition plus : SX -> SX -> result SX := binop Rplus.
Definition minus : SX -> SX -> result SX := binop Rminus.
Definition times : SX -> SX -> result SX := binop Rmult.
Definition rdiv : SX -> SX -> result SX := binop Rdiv.

(** [x.T]. *)
Definition transpose (x : SX) : SX :=
  mkSX (ncol x) (nrow x) (fun i j => elt x j i).

(** [mtimes(x, y)]: the matrix product; with a 1 x 1 factor it is the
    elementwise product. *)
Definition mtimes (x y : SX) : result SX :=
  if is_scalar x || is_scalar y then times x y
  else if Nat.eqb (ncol x) (nrow y) then
    Ok (mkSX (nrow x) (ncol y)
             (fun i j => rsum (ncol x) (fun k => elt x i k * elt y k j)))
  else Raise (RuntimeError "Dimension mismatch for matrix product").

(** [sum2(x)]: the sum of each row, a column vector. *)
Definition sum2 (x : SX) : SX :=
  mkSX (nrow x) 1 (fun i _ => rsum (ncol x) (fun j => elt x i j)).

(** [horzcat(x, y)]: empty operands are skipped, otherwise the numbers of
    rows must agree. *)
Definition horzcat (x y : SX) : result SX :=
  if is_empty x then Ok y
  else if is_empty y then Ok x
  else if Nat.eqb (nrow x) (nrow y) then
    Ok (mkSX (nrow x) (ncol x + ncol y)
             (fun i j => if (j <? ncol x)%nat then elt x i j
                         else elt y i (j - ncol x)%nat))
  else Raise (RuntimeError "horzcat: dimension mismatch").

(** [vertcat(x, y)]. *)
Definition vertcat (x y : SX) : result SX :=
  if is_empty x then Ok y
  else if is_empty y then Ok x
  else if Nat.eqb (ncol x) (ncol y) then
    Ok (mkSX (nrow x + nrow y) (ncol x)
             (fun i j => if (i <? nrow x)%nat then elt x i j
                         else elt y (i - nrow x)%nat j))
  else Raise (RuntimeError "vertcat: dimension mismatch").

(** [x[:, i]]: column [i]. *)
Definition column (x : SX) (i : nat) : SX :=
  mkSX (nrow x) 1 (fun r _ => elt x r i).

End Casadi.

Import Casadi.

(** ** gp_models_utils_casadi.py *)

(** The hyperparameter dictionary [hyp]: the keys the kernels read, each
    present or not. *)
Record Hyp : Type := mkHyp {
  rbf_lengthscales : option (list R);
  rbf_variance : option R;
  lin_variances : option (list R)
}.

(** [hyp[key]]: [KeyError] when the key is missing. *)
Definition hyp_get {A : Type} (field : option A) (key : string) : result A :=
  match field with
  | Some v => Ok v
  | None => Raise (KeyError key)
  end.

(** The signature shared by the kernels: [kern(x, hyp, y = None, diag_only = False)]. *)
Definition kernel : Type := SX -> Hyp -> option SX -> bool -> result SX.

Definition _unscaled_dist (x y : SX) : result SX :=
  let n_x := nrow x in
  let n_y := nrow y in
  let x1sq := sum2 (sq x) in
  let x2sq := sum2 (sq y) in
  do xy <- mtimes x (transpose y);
  do s <- plus (scale (-2) xy) (repmat x1sq 1 n_y);
  do r2 <- plus s (repmat (transpose x2sq) n_x 1);
  Ok (SX_sqrt r2).

Definition _k_rbf : kernel := fun x hyp y diag_only =>
  do lenscales <- hyp_get (rbf_lengthscales hyp) "rbf_lengthscales";
  do precision <- hyp_get (rbf_variance hyp) "rbf_variance";
  let T := nrow x in
  if diag_only then
    (* [SX(T,)] is the call [SX(T)]: a 1 x 1 matrix holding the number T *)
    let ret := SX_num (INR T) in
    let ret := set_all ret precision in
    Ok ret
  else
    let n_x := nrow x in
    let y := match y with None => x | Some y => y end in
    let n_y := nrow y in
    let lens_x := repmat (row_vector lenscales) n_x 1 in
    let lens_y := repmat (row_vector lenscales) n_y 1 in
    do xs <- rdiv x lens_x;
    do ys <- rdiv y lens_y;
    do r <- _unscaled_dist xs ys;
    Ok (scale precision (SX_exp (scale (-0.5) (sq r)))).

Definition _k_lin : kernel := fun x hyp y diag_only =>
  do var <- hyp_get (lin_variances hyp) "lin_variances";
  let n_x := nrow x in
  let var_x := SX_sqrt (repmat (row_vector var) n_x 1) in
  let '(var_y, y) :=
    match y with
    | None => (var_x, x)
    | Some y =>
        let n_y := nrow y in
        (SX_sqrt (repmat (row_vector var) n_y 1), y)
    end in
  do xv <- times x var_x;
  do yv <- times y var_y;
  mtimes xv (transpose yv).

Definition _k_prod_lin_rbf : kernel := fun x hyp y diag_only =>
  do lin_variances <- hyp_get (lin_variances hyp) "lin_variances";
  do rbf_lengthscales <- hyp_get (rbf_lengthscales hyp) "rbf_lengthscales";
  do rbf_variance <- hyp_get (rbf_variance hyp) "rbf_variance";
  do k_r <- _k_rbf x hyp y diag_only;
  do k_l <- _k_lin x hyp y diag_only;
  times k_r k_l.

(** What [gp_pred] returns: [pred_mu] alone, or the pair [pred_mu, pred_sigm]. *)
Inductive gp_out : Type :=
| MeanOnly (pred_mu : SX)
| MeanVar (pred_mu pred_sigm : SX).

Definition gp_pred (x : SX) (kern : kernel) (beta x_train : SX) (hyp : Hyp)
    (k_inv_training : option SX) (pred_var : bool) : result gp_out :=
  let n_pred := nrow x in
  do k_star <- kern x hyp (Some x_train) false;
  do pred_mu <- mtimes k_star beta;
  if pred_var then
    match k_inv_training with
    | None =>
        Raise (ValueError
          "The inverted kernel matrix is required for computing the predictive variance")
    | Some k_inv_training =>
        do k_expl_var <- kern x hyp None true;
        do kk <- mtimes k_star k_inv_training;
        do kkk <- times kk k_star;
        do pred_sigm <- minus k_expl_var (sum2 kkk);
        Ok (MeanVar pred_mu pred_sigm)
    end
  else Ok (MeanOnly pred_mu).

Definition _get_kernel_function (kern_type : string) : result kernel :=
  if String.eqb kern_type "rbf" then Ok _k_rbf
  else if String.eqb kern_type "prod_lin_rbf" then Ok _k_prod_lin_rbf
  else Raise (ValueError "Unknown kernel type").

(** The three accumulators of the loop of [gp_pred_function]. *)
Record acc : Type := mkAcc { mu_all : SX; pred_sigma_all : SX; jac_mu_all : SX }.

Section GpPredFunction.

(** The autodiff engine: [jacobian f x] is what casadi returns for
    [Function(..., [inp], [f(inp)]).jacobian(...)] evaluated at [x]. *)
Variable jacobian : (SX -> result SX) -> SX -> SX.

(** The mean output [mu_1] of the [i]-th [pred_func] as a function of [inp]. *)
Definition mu_func (kern_i : kernel) (beta_i x_train : SX) (hyp_i : Hyp)
    (k_inv_i : option SX) (pred_var : bool) (inp : SX) : result SX :=
  do out <- gp_pred inp kern_i beta_i x_train hyp_i k_inv_i pred_var;
  match out with
  | MeanOnly mu_new => Ok mu_new
  | MeanVar mu_new _ => Ok mu_new
  end.

(** One pass through the body of [for i in range(n_gps)].  Building
    [pred_func] on the symbol [inp] (of the shape of [x]) and calling it with
    [inp = x] is the evaluation of [gp_pred] at [x]. *)
Definition loop_body (x x_train beta : SX) (hyp : list Hyp)
    (kern_types : list string) (k_inv_training : option (list SX))
    (pred_var compute_grads : bool) (a : acc) (i : nat) : result acc :=
  do kern_type <- py_index kern_types i;
  do kern_i <- _get_kernel_function kern_type;
  let beta_i := column beta i in
  do hyp_i <- py_index hyp i;
  do k_inv_i <- match k_inv_training with
                | None => Ok None
                | Some ks => do k <- py_index ks i; Ok (Some k)
                end;
  do F_1 <- (if pred_var then
               do out <- gp_pred x kern_i beta_i x_train hyp_i k_inv_i pred_var;
               match out with
               | MeanVar mu_new sigma_new =>
                   do sig <- horzcat sigma_new (pred_sigma_all a);
                   Ok (mu_new, sig)
               | MeanOnly _ => Raise (TypeError "cannot unpack")
               end
             else
               do out <- gp_pred x kern_i beta_i x_train hyp_i k_inv_i pred_var;
               match out with
               | MeanOnly mu_new => Ok (mu_new, pred_sigma_all a)
               | MeanVar mu_new _ => Ok (mu_new, pred_sigma_all a)
               end);
  let mu_1 := fst F_1 in
  do mu <- horzcat (mu_all a) mu_1;
  if compute_grads then
    let jac_mu :=
      jacobian (mu_func kern_i beta_i x_train hyp_i k_inv_i pred_var) x in
    do jac <- vertcat (jac_mu_all a) jac_mu;
    Ok (mkAcc mu (snd F_1) jac)
  else Ok (mkAcc mu (snd F_1) (jac_mu_all a)).

Fixpoint for_range (body : acc -> nat -> result acc) (idxs : list nat) (a : acc)
    : result acc :=
  match idxs with
  | [] => Ok a
  | i :: rest => do a' <- body a i; for_range body rest a'
  end.

Definition gp_pred_function (x x_train beta : SX) (hyp : list Hyp)
    (kern_types : list string) (k_inv_training : option (list SX))
    (pred_var compute_grads : bool) : result (gmap string SX) :=
  let n_gps := ncol beta in
  let out_dict : gmap string SX := ∅ in
  do a <- for_range
            (loop_body x x_train beta hyp kern_types k_inv_training
                       pred_var compute_grads)
            (seq 0 n_gps) (mkAcc SX_empty SX_empty SX_empty);
  let out_dict := <["pred_mu" := mu_all a]> out_dict in
  let out_dict :=
    if pred_var then <["pred_sigma" := pred_sigma_all a]> out_dict else out_dict in
  let out_dict :=
    if compute_grads then <["jac_mu" := jac_mu_all a]> out_dict else out_dict in
  Ok out_dict.

End GpPredFunction.

(** ** ssm_pytorch/gaussian_process.py *)

Module GaussianProcess.

(** Names bound at module level: the imports, [__all__] and the top-level
    classes and functions. *)
Definition module_globals : gset string :=
  list_to_set
    [ "torch"; "ModuleList"; "gpytorch"; "MultivariateNormal";
      "StateSpaceModel"; "compute_hessian"; "compute_jacobian"; "__all__";
      "BatchMean"; "BatchKernel"; "LinearMean"; "WrappedNormal";
      "MultiOutputGP"; "GPytorchSSM" ].

(** Names bound in the body of [def GPytorchSSM(StateSpaceModel)], visible
    from the functions nested in it. *)
Definition GPytorchSSM_scope : gset string :=
  list_to_set
    [ "StateSpaceModel"; "__init__"; "_compute_hessian_mean"; "predict";
      "linearize_predict" ].

(** Looking up a name that is not a local variable: [NameError] when no
    scope binds it. *)
Definition load_global (globals : gset string) (name : string) : result unit :=
  if decide (name ∈ globals) then Ok tt else Raise (NameError name).

Section Torch.

(** Tensors and numpy arrays, and the collaborators from torch, gpytorch
    and [utilities]. *)
Variable tensor : Type.
Variable np_shape : tensor -> list nat.
Variable torch_stack : tensor -> tensor -> nat -> result tensor.
Variable tensor_item : tensor -> nat -> nat -> result tensor.
Variable compute_jacobian : (tensor -> result tensor) -> tensor -> result tensor.
Variable hessian_hessian : tensor -> tensor -> result tensor.

(** [MultiOutputGP]: the training data kept by [ExactGP] and the two
    modules set in [__init__]. *)
Record MultiOutputGP : Type := mkGP {
  train_inputs : list tensor;
  train_targets : tensor;
  mean : tensor -> result tensor;
  kernel : tensor -> result tensor
}.

(** A method that may raise and may change the model: the outcome and
    the model afterwards. *)
Definition set_train_data (self : MultiOutputGP) (inputs targets : option tensor)
    (strict : bool) : result unit * MultiOutputGP :=
  (Raise (NotImplementedError "TODO"), self).

Record GPytorchSSM : Type := mkSSM {
  num_states : nat;
  num_actions : nat;
  pytorch_gp : MultiOutputGP
}.

(** What the functions return: arrays, the per-output Hessians stacked along
    the first axis, tuples of these, or [None]. *)
Inductive pyitem : Type :=
| PyArray (t : tensor)
| PyStacked (slices : list tensor).

Inductive pyval : Type :=
| PyNone
| PyTuple (items : list pyitem).

(** [out[i]]. *)
Definition getitem (v : pyval) (i : nat) : result pyitem :=
  match v with
  | PyTuple items => py_index items i
  | _ => Raise (TypeError "object is not subscriptable")
  end.

(** A local variable holding an array; a name that is not a local is
    looked up in the enclosing scopes. *)
Definition load_array (locals : gmap string tensor) (globals : gset string)
    (name : string) : result tensor :=
  match locals !! name with
  | Some v => Ok v
  | None =>
      do _ <- load_global globals name;
      Raise (TypeError "not an array")
  end.

Section Scopes.

(** The names visible from the nested functions besides their locals. *)
Variable globals : gset string.

Fixpoint hessian_rows (self : GPytorchSSM) (inp : tensor) (idxs : list nat)
    : result (list tensor) :=
  match idxs with
  | [] => Ok []
  | i :: rest =>
      do _ <- load_global globals "hessian";
      do m <- mean (pytorch_gp self) inp;
      do m_i <- tensor_item m 0 i;
      do h <- hessian_hessian m_i inp;
      do hs <- hessian_rows self inp rest;
      Ok (h :: hs)
  end.

Definition _compute_hessian_mean (self : GPytorchSSM) (states actions : tensor)
    : result pyitem :=
  do inp <- torch_stack states actions 1;
  let n_in := (num_states self + num_actions self)%nat in
  do hess_mean <- hessian_rows self inp (seq 0 (num_states self));
  Ok (PyStacked hess_mean).

Definition predict (self : GPytorchSSM) (states actions : tensor)
    (jacobians full_cov : bool) : result pyval :=
  do inp <- torch_stack states actions 1;
  do pred_mean <- mean (pytorch_gp self) inp;
  do pred_var <- kernel (pytorch_gp self) inp;
  if jacobians then
    do jac_mean <- compute_jacobian (mean (pytorch_gp self)) inp;
    do jac_var <- compute_jacobian (kernel (pytorch_gp self)) inp;
    Ok (PyTuple [PyArray pred_mean; PyArray pred_var;
                 PyArray jac_mean; PyArray jac_var])
  else
    (* the statement [pred_mean, pred_var] builds a tuple and drops it;
       the function ends without [return] *)
    Ok PyNone.

Definition linearize_predict (self : GPytorchSSM) (states actions : tensor)
    (jacobians full_cov : bool) : result pyval :=
  let locals : gmap string tensor :=
    <["states" := states]> (<["actions" := actions]> ∅) in
  do _ <- load_global globals "np";
  do state <- load_array locals globals "state";
  match np_shape state with
  | [N; n] =>
      if jacobians && (1 <? n)%nat then
        Raise (NotImplementedError
          "'linearize_predict' currently only allows for single inputs, i.e. (1 x n) arrays, when computing jacobians.")
      else
        do out <- predict self states actions jacobians false;
        if jacobians then
          do hess_mean <- _compute_hessian_mean self states actions;
          do out0 <- getitem out 0;
          do out1 <- getitem out 1;
          do out2 <- getitem out 2;
          do out3 <- getitem out 3;
          Ok (PyTuple [out0; out1; out2; out3; hess_mean])
        else
          do out0 <- getitem out 0;
          do out1 <- getitem out 1;
          Ok (PyTuple [out0; out1])
  | _ => Raise (ValueError "cannot unpack the shape into N, n")
  end.

End Scopes.

End Torch.

End GaussianProcess.

(** ** ssm_pytorch/gaussian_process.py: the batch-mode means and kernels *)

Module BatchModes.

(** Torch tensors of reals with two and with three dimensions. *)
Record Tensor2 : Type :=
  mkT2 { t2_size0 : nat; t2_size1 : nat; t2_elt : nat -> nat -> R }.
Record Tensor3 : Type :=
  mkT3 { t3_size0 : nat; t3_size1 : nat; t3_size2 : nat;
         t3_elt : nat -> nat -> nat -> R }.

(** The size of a subscript that two operands of [torch.einsum] share: the
    two sizes agree, or one of them is 1 and is broadcast. *)
Definition broadcast_size (a b : nat) : result nat :=
  if Nat.eqb a b then Ok a
  else if Nat.eqb a 1 then Ok b
  else if Nat.eqb b 1 then Ok a
  else Raise (RuntimeError "einsum: operands do not broadcast").

(** The index read in an operand whose dimension has the given size. *)
Definition at_index (size i : nat) : nat := if Nat.eqb size 1 then 0%nat else i.

(** [torch.einsum('ij,ilj->il', m, x)]. *)
Definition einsum_ij_ilj_il (m : Tensor2) (x : Tensor3) : result Tensor2 :=
  do size_i <- broadcast_size (t2_size0 m) (t3_size0 x);
  do size_j <- broadcast_size (t2_size1 m) (t3_size2 x);
  Ok (mkT2 size_i (t3_size1 x)
        (fun i l =>
           rsum size_j
             (fun j => t2_elt m (at_index (t2_size0 m) i) (at_index (t2_size1 m) j)
                       * t3_elt x (at_index (t3_size0 x) i) l
                                  (at_index (t3_size2 x) j)))).

Section LinearMean.

(** The gpytorch priors. *)
Variable Prior : Type.

(** [LinearMean]: the matrix, whether it is registered as a parameter, and
    the prior registered for it. *)
Record LinearMean : Type := mkLinearMean {
  matrix : Tensor2;
  is_parameter : bool;
  matrix_prior : option Prior
}.

(** [LinearMean.__init__(matrix, trainable, prior)]. *)
Definition LinearMean_init (matrix : Tensor2) (trainable : bool)
    (prior : option Prior) : LinearMean :=
  if trainable then mkLinearMean matrix true prior
  else mkLinearMean matrix false None.

(** [LinearMean.batch_size]. *)
Definition LinearMean_batch_size (self : LinearMean) : nat :=
  t2_size0 (matrix self).

(** [LinearMean.forward]. *)
Definition LinearMean_forward (self : LinearMean) (x : Tensor3) : result Tensor2 :=
  einsum_ij_ilj_il (matrix self) x.

End LinearMean.

Section Batch.

(** The tensors handled batch by batch, the lazy kernel matrices gpytorch
    kernels return, and the collaborators [torch.stack], [.diag()] and
    [.evaluate()]. *)
Variables T L : Type.
Variable torch_stack : list T -> result T.
Variable lazy_diag : L -> result T.
Variable lazy_evaluate : L -> result T.

Record BatchMean : Type := mkBatchMean { base_means : list (T -> result T) }.

(** [[mean(x) for x, mean in zip(input, self.base_means)]]: iterating the
    tensor [input] yields its slices along the first dimension, and [zip]
    stops with the shorter of the two. *)
Fixpoint zip_means (input : list T) (means : list (T -> result T))
    : result (list T) :=
  match input, means with
  | x :: input', mean :: means' =>
      do v <- mean x;
      do vs <- zip_means input' means';
      Ok (v :: vs)
  | _, _ => Ok []
  end.

(** [BatchMean.forward]. *)
Definition BatchMean_forward (self : BatchMean) (input : list T) : result T :=
  do means <- zip_means input (base_means self);
  torch_stack means.

(** [BatchMean.__getitem__]. *)
Definition BatchMean_getitem (self : BatchMean) (item : nat)
    : result (T -> result T) :=
  py_index (base_means self) item.

Record BatchKernel : Type :=
  mkBatchKernel { base_kernels : list (T -> T -> result L) }.

(** [[kernel(x1[i], x2[i], **params) for i, kernel in
    enumerate(self.base_kernels)]], from the index [i] on. *)
Fixpoint enumerate_kernels (i : nat) (kernels : list (T -> T -> result L))
    (x1 x2 : list T) : result (list L) :=
  match kernels with
  | [] => Ok []
  | kernel :: kernels' =>
      do x1_i <- py_index x1 i;
      do x2_i <- py_index x2 i;
      do k <- kernel x1_i x2_i;
      do ks <- enumerate_kernels (S i) kernels' x1 x2;
      Ok (k :: ks)
  end.

(** [[f(kernel) for kernel in kernels]]. *)
Fixpoint map_kernels (f : L -> result T) (kernels : list L) : result (list T) :=
  match kernels with
  | [] => Ok []
  | k :: kernels' =>
      do v <- f k;
      do vs <- map_kernels f kernels';
      Ok (v :: vs)
  end.

(** [BatchKernel.forward]. *)
Definition BatchKernel_forward (self : BatchKernel) (x1 x2 : list T) (diag : bool)
    : result T :=
  do kernels <- enumerate_kernels 0 (base_kernels self) x1 x2;
  do kernels <- (if diag then map_kernels lazy_diag kernels
                 else map_kernels lazy_evaluate kernels);
  torch_stack kernels.

(** [BatchKernel.__getitem__]. *)
Definition BatchKernel_getitem (self : BatchKernel) (item : nat)
    : result (T -> T -> result L) :=
  py_index (base_kernels self) item.

End Batch.

End BatchModes.

(** ** Concrete inputs *)

Module Inputs.

(** One prediction point and one training point, both at the origin of a
    one-dimensional input space; two output dimensions. *)
Definition x : SX := of_rows 1 [[0]].
Definition x_train : SX := of_rows 1 [[0]].
Definition beta : SX := of_rows 2 [[1; 1]].

(** Two RBF GPs with signal variances 1 and 2, and the inverses of their
    1 x 1 training kernel matrices with noise variances 1 and 2. *)
Definition hyp_0 : Hyp := mkHyp (Some [1]) (Some 1) None.
Definition hyp_1 : Hyp := mkHyp (Some [1]) (Some 2) None.
Definition k_inv_0 : SX := of_rows 1 [[/ 2]].
Definition k_inv_1 : SX := of_rows 1 [[/ 4]].

(** Two points of a one-dimensional input space, for the linear kernel. *)
Definition x_two : SX := of_rows 1 [[1]; [2]].
Definition hyp_lin : Hyp := mkHyp (Some [1]) (Some 1) (Some [1]).

(** The configuration of the two GPs as [gp_pred_function] receives it. *)
Definition hyp : list Hyp := [hyp_0; hyp_1].
Definition kern_types : list string := ["rbf"; "rbf"]%string.
Definition k_inv_training : option (list SX) := Some [k_inv_0; k_inv_1].

Definition hyps (i : nat) : Hyp := nth i hyp hyp_0.
Definition kinvs (i : nat) : option SX := Some (nth i [k_inv_0; k_inv_1] k_inv_0).
Definition outs (pred_var : bool) (i : nat) : gp_out :=
  match gp_pred x _k_rbf (column beta i) x_train (hyps i) (kinvs i) pred_var with
  | Ok out => out
  | Raise _ => MeanOnly SX_empty
  end.

(** The kernel matrix of GP number 0 between [x] and [x_train], and its
    product with the first column of [beta]. *)
Definition k_star : SX :=
  match _k_rbf x hyp_0 (Some x_train) false with
  | Ok k => k
  | Raise _ => SX_empty
  end.
Definition pred_mu : SX :=
  match mtimes k_star (column beta 0) with
  | Ok m => m
  | Raise _ => SX_empty
  end.
Definition k_diag : SX :=
  match _k_rbf x hyp_0 None true with
  | Ok k => k
  | Raise _ => SX_empty
  end.

(** The mean of both GPs is stationary at the prediction point, which is the
    training point: its Jacobian there is the 1 x 1 zero matrix. *)
Definition jacobian (f : SX -> result SX) (at_x : SX) : SX := of_rows 1 [[0]].

End Inputs.

(** A training point at 1, where the linear kernel does not vanish. *)
Module ProductInputs.

Definition x_train : SX := of_rows 1 [[1]].

End ProductInputs.

(** ** Vocabulary of the statements *)

(** [z] is an [n] x [m] matrix whose entries are given by [g]. *)
Definition is_mat (z : SX) (n m : nat) (g : nat -> nat -> R) : Prop :=
  nrow z = n /\ ncol z = m /\
  forall i j, (i < n)%nat -> (j < m)%nat -> elt z i j = g i j.

(** An accumulator that holds [k] blocks so far: still the empty list when
    [k = 0], afterwards the [n] x [m] matrix with entries [g]. *)
Definition stacked (z : SX) (k n m : nat) (g : nat -> nat -> R) : Prop :=
  (k = 0%nat -> z = SX_empty) /\ ((0 < k)%nat -> is_mat z n m g).

(** [kern], [h] and [ki] are what the loop of [gp_pred_function] reads for
    its [i]-th single-output GP: [kern_types[i]] resolved to a kernel,
    [hyp[i]], and [k_inv_training[i]] when [k_inv_training] is given. *)
Definition is_nth_gp (hyp : list Hyp) (kern_types : list string)
    (k_inv_training : option (list SX)) (i : nat)
    (kern : kernel) (h : Hyp) (ki : option SX) : Prop :=
  (exists kt, kern_types !! i = Some kt /\ _get_kernel_function kt = Ok kern) /\
  hyp !! i = Some h /\
  match k_inv_training with
  | None => ki = None
  | Some ks => exists k, ks !! i = Some k /\ ki = Some k
  end.

(** The mean and the variance (when there is one) of an output of [gp_pred]
    are column vectors with [n] rows. *)
Definition out_columns (n : nat) (out : gp_out) : Prop :=
  match out with
  | MeanOnly mu => nrow mu = n /\ ncol mu = 1%nat
  | MeanVar mu sg => (nrow mu = n /\ ncol mu = 1%nat) /\ nrow sg = n /\ ncol sg = 1%nat
  end.

Definition out_mean (out : gp_out) : SX :=
  match out with
  | MeanOnly mu => mu
  | MeanVar mu _ => mu
  end.

Definition out_variance (out : gp_out) : SX :=
  match out with
  | MeanOnly _ => SX_empty
  | MeanVar _ sg => sg
  end.

(** What the accumulators of [gp_pred_function] hold after [k] passes, for
    single-output GPs with outputs [outs] and Jacobians [jacs]: the means in
    the order of the outputs, the variances with the latest in front, the
    Jacobians ([r] x [c] each) below one another. *)
Definition loop_invariant (pred_var compute_grads : bool) (outs : nat -> gp_out)
    (jacs : nat -> SX) (n r c : nat) (k : nat) (a : acc) : Prop :=
  stacked (mu_all a) k n k (fun q g => elt (out_mean (outs g)) q 0%nat) /\
  (if pred_var then
     stacked (pred_sigma_all a) k n k
       (fun q g => elt (out_variance (outs (k - 1 - g)%nat)) q 0%nat)
   else pred_sigma_all a = SX_empty) /\
  (if compute_grads then
     stacked (jac_mu_all a) k (k * r)%nat c
       (fun i j => elt (jacs (i / r)%nat) (i mod r)%nat j)
   else jac_mu_all a = SX_empty).

(** The value of the RBF kernel between row [i] of [x] and row [j] of [y]. *)
Definition rbf_value (ls : list R) (s2 : R) (x y : SX) (i j : nat) : R :=
  s2 * exp (- (1 / 2) *
            rsum (length ls)
              (fun d => ((elt x i d - elt y j d) / nth d ls 0) ^ 2)).

(** The value of the linear kernel between row [i] of [x] and row [j] of [y]. *)
Definition lin_value (var : list R) (x y : SX) (i j : nat) : R :=
  rsum (length var) (fun d => nth d var 0 * elt x i d * elt y j d).

(** The quadratic form [sum_i sum_j c_i c_j K_ij] of a square matrix. *)
Definition quad_form (K : SX) (c : nat -> R) : R :=
  rsum (nrow K) (fun i => rsum (ncol K) (fun j => c i * c j * elt K i j)).

(** An exception of the kind the kernels can raise: a missing key of [hyp]
    or a casadi dimension mismatch. *)
Definition key_or_casadi_error (e : exn) : Prop :=
  (exists key, e = KeyError key) \/ (exists msg, e = RuntimeError msg).

(** * Properties *)

(** ** Shapes and entries of the casadi operations *)

Lemma rsum_ext n f g :
  (forall k, (k < n)%nat -> f k = g k) -> rsum n f = rsum n g.
Proof.
  induction n as [|n IH]; intros H; simpl; [reflexivity|].
  rewrite IH by (intros k Hk; apply H; lia).
  rewrite (H n) by lia. reflexivity.
Qed.

Lemma rsum_plus n f g :
  rsum n (fun k => f k + g k) = rsum n f + rsum n g.
Proof. induction n as [|n IH]; simpl; [lra | rewrite IH; lra]. Qed.

Lemma rsum_scal n c f :
  rsum n (fun k => c * f k) = c * rsum n f.
Proof. induction n as [|n IH]; simpl; [lra | rewrite IH; lra]. Qed.

Lemma rsum_zero n f :
  (forall k, (k < n)%nat -> f k = 0) -> rsum n f = 0.
Proof.
  induction n as [|n IH]; intros H; simpl; [reflexivity|].
  rewrite IH by (intros k Hk; apply H; lia).
  rewrite (H n) by lia. lra.
Qed.

Lemma rsum_nonneg n f :
  (forall k, (k < n)%nat -> 0 <= f k) -> 0 <= rsum n f.
Proof.
  induction n as [|n IH]; intros H; simpl; [lra|].
  assert (0 <= rsum n f) by (apply IH; intros k Hk; apply H; lia).
  assert (0 <= f n) by (apply H; lia). lra.
Qed.

Lemma is_scalar_spec x : is_scalar x = true <-> nrow x = 1%nat /\ ncol x = 1%nat.
Proof.
  unfold is_scalar. rewrite andb_true_iff, !Nat.eqb_eq. reflexivity.
Qed.

Lemma same_shape_spec x y :
  same_shape x y = true <-> nrow x = nrow y /\ ncol x = ncol y.
Proof.
  unfold same_shape. rewrite andb_true_iff, !Nat.eqb_eq. reflexivity.
Qed.

(** An elementwise operation on two matrices of one shape. *)
Lemma binop_same f x y :
  nrow x = nrow y -> ncol x = ncol y ->
  exists z, binop f x y = Ok z /\
    is_mat z (nrow x) (ncol x) (fun i j => f (elt x i j) (elt y i j)).
Proof.
  intros Hr Hc. unfold binop.
  destruct (is_scalar x) eqn:Hx.
  - apply is_scalar_spec in Hx as [Hx1 Hx2].
    eexists; split; [reflexivity|]. repeat split; simpl; try congruence.
    intros i j Hi Hj. replace i with 0%nat by lia. replace j with 0%nat by lia.
    reflexivity.
  - destruct (is_scalar y) eqn:Hy.
    + apply is_scalar_spec in Hy as [Hy1 Hy2].
      eexists; split; [reflexivity|]. repeat split; simpl.
      intros i j Hi Hj. replace i with 0%nat by lia. replace j with 0%nat by lia.
      reflexivity.
    + assert (Hs : same_shape x y = true) by (apply same_shape_spec; auto).
      rewrite Hs. eexists; split; [reflexivity|]. repeat split.
Qed.

(** A scalar on the left is broadcast over the right operand. *)
Lemma binop_scalar_l f x y :
  nrow x = 1%nat -> ncol x = 1%nat ->
  exists z, binop f x y = Ok z /\
    is_mat z (nrow y) (ncol y) (fun i j => f (elt x 0%nat 0%nat) (elt y i j)).
Proof.
  intros Hr Hc. unfold binop.
  assert (Hx : is_scalar x = true) by (apply is_scalar_spec; auto).
  rewrite Hx. eexists; split; [reflexivity|]. repeat split.
Qed.

(** The matrix product of an [n] x [m] by an [m] x [p] matrix. *)
Lemma mtimes_ok x y :
  ncol x = nrow y ->
  exists z, mtimes x y = Ok z /\
    is_mat z (nrow x) (ncol y)
      (fun i j => rsum (ncol x) (fun k => elt x i k * elt y k j)).
Proof.
  intros H. unfold mtimes.
  destruct (is_scalar x) eqn:Hx; simpl.
  - apply is_scalar_spec in Hx as [Hx1 Hx2].
    destruct (binop_scalar_l Rmult x y Hx1 Hx2) as (z & Hz & Hz1 & Hz2 & Hz3).
    exists z. split; [exact Hz|]. repeat split; try congruence.
    intros i j Hi Hj. rewrite Hx2. simpl.
    rewrite Hz3 by lia. replace i with 0%nat by lia. lra.
  - destruct (is_scalar y) eqn:Hy.
    + apply is_scalar_spec in Hy as [Hy1 Hy2].
      unfold times, binop. rewrite Hx.
      assert (Hy' : is_scalar y = true) by (apply is_scalar_spec; auto).
      rewrite Hy'. eexists; split; [reflexivity|].
      repeat split; simpl; try congruence.
      intros i j Hi Hj. rewrite H, Hy1. simpl.
      replace j with 0%nat by lia. lra.
    + apply Nat.eqb_eq in H. rewrite H.
      eexists; split; [reflexivity|]. repeat split.
Qed.

Lemma repmat_rows_elt x n i j :
  (i < nrow x)%nat -> (j < n * ncol x)%nat -> ncol x = 1%nat ->
  elt (repmat x 1 n) i j = elt x i 0%nat.
Proof.
  intros Hi Hj Hc. simpl. rewrite Hc, Nat.mod_1_r, Nat.mod_small by lia.
  reflexivity.
Qed.

Lemma repmat_cols_elt x n i j :
  (i < n * nrow x)%nat -> (j < ncol x)%nat -> nrow x = 1%nat ->
  elt (repmat x n 1) i j = elt x 0%nat j.
Proof.
  intros Hi Hj Hr. simpl. rewrite Hr, Nat.mod_1_r, Nat.mod_small by lia.
  reflexivity.
Qed.

(** [-2 a.b + a.a + b.b] is the squared distance. *)
Lemma rsum_sqdist n (a b : nat -> R) :
  -2 * rsum n (fun k => a k * b k) + rsum n (fun k => a k * a k)
    + rsum n (fun k => b k * b k)
  = rsum n (fun k => (a k - b k) ^ 2).
Proof.
  induction n as [|n IH]; cbn [rsum]; [ring|].
  rewrite <- IH. ring.
Qed.

Lemma unscaled_dist_ok x y :
  ncol x = ncol y ->
  exists r, _unscaled_dist x y = Ok r /\
    is_mat r (nrow x) (nrow y)
      (fun i j => sqrt (rsum (ncol x) (fun k => (elt x i k - elt y j k) ^ 2))).
Proof.
  intros Hc. unfold _unscaled_dist.
  destruct (mtimes_ok x (transpose y)) as (xy & Hxy & Hxy1 & Hxy2 & Hxy3);
    [simpl; exact Hc|].
  rewrite Hxy. simpl bind. simpl in Hxy2.
  destruct (binop_same Rplus (scale (-2) xy) (repmat (sum2 (sq x)) 1 (nrow y)))
    as (s & Hs & Hs1 & Hs2 & Hs3); [simpl; lia | simpl; lia|].
  unfold plus. rewrite Hs. simpl bind.
  simpl in Hs1, Hs2.
  destruct (binop_same Rplus s (repmat (transpose (sum2 (sq y))) (nrow x) 1))
    as (r2 & Hr & Hr1 & Hr2 & Hr3); [simpl; lia | simpl; lia|].
  rewrite Hr. simpl bind.
  eexists; split; [reflexivity|].
  repeat split; cbn [nrow ncol elt SX_sqrt map1]; try lia.
  intros i j Hi Hj. f_equal.
  rewrite Hr3, Hs3 by (simpl; lia).
  rewrite repmat_rows_elt by (simpl; lia).
  rewrite repmat_cols_elt by (simpl; lia).
  cbn [elt scale map1 sum2 sq transpose]. rewrite Hxy3 by (simpl; lia).
  cbn [elt transpose].
  rewrite <- (rsum_sqdist (ncol x) (fun k => elt x i k) (fun k => elt y j k)).
  cbn [ncol sq map1]. rewrite <- Hc. reflexivity.
Qed.

Lemma sqrt_sq_nonneg v : 0 <= v -> sqrt v * sqrt v = v.
Proof. intros H. apply sqrt_sqrt. exact H. Qed.

Lemma rsum_sq_nonneg n (f : nat -> R) : 0 <= rsum n (fun k => f k ^ 2).
Proof.
  apply rsum_nonneg. intros k _. apply pow2_ge_0.
Qed.

Lemma row_vector_rep_elt l n i j :
  (i < n)%nat -> (j < length l)%nat ->
  elt (repmat (row_vector l) n 1) i j = nth j l 0.
Proof.
  intros Hi Hj. simpl. rewrite Nat.mod_small by lia. reflexivity.
Qed.

(** C2.  The RBF kernel of [x] (n_x rows) and [y] (n_y rows), with lengthscales
    [ls] and variance [s2] read from [hyp], is the n_x x n_y matrix with
    entries [s2 * exp (-1/2 * sum_d ((x_id - y_jd) / ls_d)^2)]; with [y]
    omitted it is [_k_rbf x hyp x]. *)
Theorem k_rbf_entries (x y : SX) (hyp : Hyp) (ls : list R) (s2 : R) :
  rbf_lengthscales hyp = Some ls ->
  rbf_variance hyp = Some s2 ->
  ncol x = length ls ->
  ncol y = length ls ->
  (exists K, _k_rbf x hyp (Some y) false = Ok K /\
     is_mat K (nrow x) (nrow y)
       (fun i j =>
          s2 * exp (- (1 / 2) *
                    rsum (length ls)
                      (fun d => ((elt x i d - elt y j d) / nth d ls 0) ^ 2))))
  /\ _k_rbf x hyp None false = _k_rbf x hyp (Some x) false.
Proof.
  intros Hl Hv Hx Hy. split; [|reflexivity].
  unfold _k_rbf. rewrite Hl, Hv. simpl bind. cbv iota.
  destruct (binop_same Rdiv x (repmat (row_vector ls) (nrow x) 1))
    as (xs & Hxs & Hxs1 & Hxs2 & Hxs3); [simpl; lia | simpl; lia|].
  destruct (binop_same Rdiv y (repmat (row_vector ls) (nrow y) 1))
    as (ys & Hys & Hys1 & Hys2 & Hys3); [simpl; lia | simpl; lia|].
  unfold rdiv. rewrite Hxs. simpl bind. rewrite Hys. simpl bind.
  destruct (unscaled_dist_ok xs ys) as (r & Hr & Hr1 & Hr2 & Hr3); [congruence|].
  rewrite Hr. simpl bind.
  eexists; split; [reflexivity|].
  repeat split; simpl; try congruence.
  intros i j Hi Hj.
  rewrite Hr3 by congruence.
  rewrite sqrt_sq_nonneg by apply rsum_sq_nonneg.
  f_equal. f_equal.
  replace (-0.5) with (- (1 / 2)) by lra.
  f_equal. rewrite Hxs2, Hx.
  apply rsum_ext. intros k Hk.
  rewrite Hxs3, Hys3 by lia.
  rewrite !row_vector_rep_elt by lia.
  f_equal. unfold Rdiv. lra.
Qed.

(** The mean, and the variance for a kernel that answers [diag_only = True]
    with a column of n entries.  With [K_star = kern(x, hyp, y = x_train)] (n rows, m columns) and [beta]
    with m rows, [gp_pred] returns the mean [K_star . beta]: alone when
    [pred_var] is false, and, when [pred_var] is true and the m x m matrix
    [k_inv_training] is given, together with the variance vector whose i-th
    entry is the i-th entry of [kern(x, hyp, diag_only = True)] minus the
    i-th diagonal entry of [K_star . k_inv_training . K_star^T]. *)
Theorem gp_pred_mean_variance (x : SX) (kern : kernel) (beta x_train : SX)
    (hyp : Hyp) (k_star : SX) :
  kern x hyp (Some x_train) false = Ok k_star ->
  ncol k_star = nrow beta ->
  let mean_entry i j := rsum (ncol k_star) (fun k => elt k_star i k * elt beta k j) in
  (forall k_inv_training,
     exists pred_mu,
       gp_pred x kern beta x_train hyp k_inv_training false = Ok (MeanOnly pred_mu) /\
       is_mat pred_mu (nrow k_star) (ncol beta) mean_entry)
  /\
  (forall k_inv k_diag,
     kern x hyp None true = Ok k_diag ->
     nrow k_diag = nrow k_star -> ncol k_diag = 1%nat ->
     nrow k_inv = ncol k_star -> ncol k_inv = ncol k_star ->
     exists pred_mu pred_sigm,
       gp_pred x kern beta x_train hyp (Some k_inv) true
         = Ok (MeanVar pred_mu pred_sigm) /\
       is_mat pred_mu (nrow k_star) (ncol beta) mean_entry /\
       is_mat pred_sigm (nrow k_star) 1
         (fun i _ =>
            elt k_diag i 0%nat
            - rsum (ncol k_star)
                (fun j =>
                   rsum (ncol k_star) (fun k => elt k_star i k * elt k_inv k j)
                   * elt (transpose k_star) j i))).
Proof.
  intros Hk Hb mean_entry.
  destruct (mtimes_ok k_star beta Hb) as (mu & Hmu & Hmu_mat).
  split.
  - intros k_inv_training. exists mu. split; [|exact Hmu_mat].
    unfold gp_pred. rewrite Hk. simpl bind. rewrite Hmu. reflexivity.
  - intros k_inv k_diag Hd Hd1 Hd2 Hi1 Hi2.
    destruct (mtimes_ok k_star k_inv) as (kk & Hkk & Hkk1 & Hkk2 & Hkk3);
      [congruence|].
    destruct (binop_same Rmult kk k_star) as (kkk & Hkkk & Hk1 & Hk2 & Hk3);
      [congruence | congruence|].
    destruct (binop_same Rminus k_diag (sum2 kkk)) as (sg & Hsg & Hs1 & Hs2 & Hs3);
      [simpl; congruence | simpl; congruence|].
    exists mu, sg. split; [|split; [exact Hmu_mat|]].
    + unfold gp_pred. rewrite Hk. simpl bind. rewrite Hmu. simpl bind.
      rewrite Hd. simpl bind. rewrite Hkk. simpl bind.
      unfold times. rewrite Hkkk. simpl bind.
      unfold minus. rewrite Hsg. reflexivity.
    + repeat split; try congruence.
      intros i j Hi Hj. replace j with 0%nat by lia.
      rewrite Hs3 by lia. f_equal.
      cbn [elt sum2 transpose]. rewrite Hk2, Hkk2, Hi2.
      apply rsum_ext. intros c Hc.
      rewrite Hk3 by lia. rewrite Hkk3 by lia. reflexivity.
Qed.

(** When the kernel answers [diag_only = True] with a 1 x 1 matrix, as
    [_k_rbf] does, the subtraction broadcasts it: every entry of the
    variance is that single number minus the diagonal entry. *)
Lemma gp_pred_variance_scalar_diag (x : SX) (kern : kernel) (beta x_train : SX)
    (hyp : Hyp) (k_star k_inv k_diag : SX) :
  kern x hyp (Some x_train) false = Ok k_star ->
  ncol k_star = nrow beta ->
  kern x hyp None true = Ok k_diag ->
  nrow k_diag = 1%nat -> ncol k_diag = 1%nat ->
  nrow k_inv = ncol k_star -> ncol k_inv = ncol k_star ->
  exists pred_mu pred_sigm,
    gp_pred x kern beta x_train hyp (Some k_inv) true
      = Ok (MeanVar pred_mu pred_sigm) /\
    is_mat pred_sigm (nrow k_star) 1
      (fun i _ =>
         elt k_diag 0%nat 0%nat
         - rsum (ncol k_star)
             (fun j =>
                rsum (ncol k_star) (fun k => elt k_star i k * elt k_inv k j)
                * elt (transpose k_star) j i)).
Proof.
  intros Hk Hb Hd Hd1 Hd2 Hi1 Hi2.
  destruct (mtimes_ok k_star beta Hb) as (mu & Hmu & _).
  destruct (mtimes_ok k_star k_inv) as (kk & Hkk & Hkk1 & Hkk2 & Hkk3);
    [congruence|].
  destruct (binop_same Rmult kk k_star) as (kkk & Hkkk & Hk1 & Hk2 & Hk3);
    [congruence | congruence|].
  destruct (binop_scalar_l Rminus k_diag (sum2 kkk) Hd1 Hd2)
    as (sg & Hsg & Hs1 & Hs2 & Hs3).
  exists mu, sg. split.
  - unfold gp_pred. rewrite Hk. simpl bind. rewrite Hmu. simpl bind.
    rewrite Hd. simpl bind. rewrite Hkk. simpl bind.
    unfold times. rewrite Hkkk. simpl bind.
    unfold minus. rewrite Hsg. reflexivity.
  - cbn [nrow ncol sum2] in Hs1, Hs2, Hs3.
    repeat split; try congruence.
    intros i j Hi Hj. replace j with 0%nat by lia.
    rewrite Hs3 by lia. f_equal.
    cbn [elt sum2 transpose]. rewrite Hk2, Hkk2, Hi2.
    apply rsum_ext. intros c Hc.
    rewrite Hk3 by lia. rewrite Hkk3 by lia. reflexivity.
Qed.

(** ** Exceptions of [gp_pred] and [_get_kernel_function] *)

(** The casadi operations raise nothing but their own [RuntimeError]. *)
Lemma binop_raise f x y e :
  binop f x y = Raise e -> exists msg, e = RuntimeError msg.
Proof.
  unfold binop. intros H.
  destruct (is_scalar x); [discriminate|].
  destruct (is_scalar y); [discriminate|].
  destruct (same_shape x y); [discriminate|].
  destruct ((nrow x =? nrow y)%nat && (ncol x mod ncol y =? 0)%nat);
    [discriminate|].
  destruct ((nrow x =? nrow y)%nat && (ncol y mod ncol x =? 0)%nat);
    [discriminate|].
  injection H as <-. eauto.
Qed.

Lemma mtimes_raise x y e :
  mtimes x y = Raise e -> exists msg, e = RuntimeError msg.
Proof.
  unfold mtimes. intros H.
  destruct (is_scalar x || is_scalar y); [eapply binop_raise; exact H|].
  destruct (ncol x =? nrow y)%nat; [discriminate|].
  injection H as <-. eauto.
Qed.

(** What the kernel or the product [K_star . beta] raises, [gp_pred] raises,
    whatever [pred_var] and [k_inv_training] are. *)
Lemma gp_pred_propagates (x : SX) (kern : kernel) (beta x_train : SX)
    (hyp : Hyp) (k_inv_training : option SX) (pred_var : bool) (e : exn) :
  (kern x hyp (Some x_train) false = Raise e \/
   exists k_star, kern x hyp (Some x_train) false = Ok k_star /\
                  mtimes k_star beta = Raise e) ->
  gp_pred x kern beta x_train hyp k_inv_training pred_var = Raise e.
Proof.
  unfold gp_pred. intros [H | (k_star & Hk & Hm)].
  - rewrite H. reflexivity.
  - rewrite Hk. cbn [bind]. rewrite Hm. reflexivity.
Qed.

(** C8, as amended.  On casadi matrices, once the kernel matrix [K_star] and
    the product [K_star . beta] are
    computed, [gp_pred] raises a [ValueError] exactly when [pred_var] is true
    and [k_inv_training] is [None] (the kernel itself raising no
    [ValueError]); with [pred_var] false it returns the mean alone, whatever
    [k_inv_training] is. *)
Theorem gp_pred_value_error (x : SX) (kern : kernel) (beta x_train : SX)
    (hyp : Hyp) (k_inv_training : option SX) (pred_var : bool)
    (k_star pred_mu : SX) :
  kern x hyp (Some x_train) false = Ok k_star ->
  mtimes k_star beta = Ok pred_mu ->
  (forall msg, kern x hyp None true <> Raise (ValueError msg)) ->
  ((exists msg,
      gp_pred x kern beta x_train hyp k_inv_training pred_var
        = Raise (ValueError msg))
   <-> pred_var = true /\ k_inv_training = None)
  /\ (pred_var = false ->
      gp_pred x kern beta x_train hyp k_inv_training pred_var
        = Ok (MeanOnly pred_mu)).
Proof.
  intros Hk Hmu Hnv. unfold gp_pred. rewrite Hk. simpl bind.
  rewrite Hmu. simpl bind. split.
  - split.
    + intros [msg H]. destruct pred_var; [|discriminate].
      split; [reflexivity|].
      destruct k_inv_training as [k_inv|]; [exfalso|reflexivity].
      destruct (kern x hyp None true) as [k_diag|e] eqn:Hd; simpl in H.
      * destruct (mtimes k_star k_inv) as [kk|e] eqn:Hkk; simpl in H.
        -- destruct (times kk k_star) as [kkk|e] eqn:Hkkk; simpl in H.
           ++ destruct (minus k_diag (sum2 kkk)) as [sg|e] eqn:Hsg; simpl in H.
              ** discriminate.
              ** apply binop_raise in Hsg as [m ->]. discriminate.
           ++ apply binop_raise in Hkkk as [m ->]. discriminate.
        -- apply mtimes_raise in Hkk as [m ->]. discriminate.
      * injection H as ->. exact (Hnv msg eq_refl).
    + intros [-> ->]. eexists. reflexivity.
  - intros ->. reflexivity.
Qed.

(** C9.  [_get_kernel_function] returns [_k_rbf] for ["rbf"], [_k_prod_lin_rbf]
    for ["prod_lin_rbf"], and raises a [ValueError] for any other string. *)
Theorem get_kernel_function_cases (kern_type : string) :
  kern_type <> "rbf"%string ->
  kern_type <> "prod_lin_rbf"%string ->
  _get_kernel_function "rbf" = Ok _k_rbf /\
  _get_kernel_function "prod_lin_rbf" = Ok _k_prod_lin_rbf /\
  _get_kernel_function kern_type = Raise (ValueError "Unknown kernel type").
Proof.
  intros H1 H2. split; [reflexivity|]. split; [reflexivity|].
  unfold _get_kernel_function.
  apply String.eqb_neq in H1, H2. rewrite H1, H2. reflexivity.
Qed.

(** C10.  [set_train_data] raises [NotImplementedError] for every [inputs],
    [targets] and [strict], and the model (its training inputs and targets
    with it) is the same afterwards. *)
Theorem set_train_data_raises (tensor : Type)
    (self : GaussianProcess.MultiOutputGP tensor)
    (inputs targets : option tensor) (strict : bool) :
  exists msg self',
    GaussianProcess.set_train_data tensor self inputs targets strict
      = (Raise (NotImplementedError msg), self') /\
    self' = self /\
    GaussianProcess.train_inputs tensor self'
      = GaussianProcess.train_inputs tensor self /\
    GaussianProcess.train_targets tensor self'
      = GaussianProcess.train_targets tensor self.
Proof.
  exists "TODO"%string, self. repeat split.
Qed.

(** ** The accumulators of [gp_pred_function] *)

Lemma is_mat_ext z n m f g :
  is_mat z n m f ->
  (forall i j, (i < n)%nat -> (j < m)%nat -> f i j = g i j) ->
  is_mat z n m g.
Proof.
  intros (Hr & Hc & He) Hfg. repeat split; try assumption.
  intros i j Hi Hj. rewrite He by assumption. apply Hfg; assumption.
Qed.

Lemma is_mat_not_empty z n m g :
  is_mat z n m g -> (0 < n)%nat -> (0 < m)%nat -> is_empty z = false.
Proof.
  intros (Hr & Hc & _) Hn Hm. unfold is_empty.
  apply orb_false_iff. split; apply Nat.eqb_neq; lia.
Qed.

(** A loop over [range]: an invariant kept by every pass holds at the end,
    and the loop does not raise. *)
Lemma for_range_inv (Inv : nat -> acc -> Prop) body len :
  forall start a,
    Inv start a ->
    (forall i a0, (start <= i < start + len)%nat -> Inv i a0 ->
       exists a1, body a0 i = Ok a1 /\ Inv (S i) a1) ->
    exists a', for_range body (seq start len) a = Ok a' /\ Inv (start + len)%nat a'.
Proof.
  induction len as [|len IH]; intros start a Hinv Hstep.
  - exists a. split; [reflexivity|]. rewrite Nat.add_0_r. exact Hinv.
  - destruct (Hstep start a) as (a1 & Hb & Hinv1); [lia | exact Hinv|].
    destruct (IH (S start) a1) as (a' & Hf & Hinv'); [exact Hinv1| |].
    + intros i a0 Hi. apply Hstep. lia.
    + exists a'. split.
      * cbn [seq for_range]. rewrite Hb. exact Hf.
      * replace (start + S len)%nat with (S start + len)%nat by lia. exact Hinv'.
Qed.

(** [horzcat(acc, m)] appends the column [m] to the [k] columns of [acc]. *)
Lemma horzcat_snoc acc m k n F :
  (0 < n)%nat ->
  stacked acc k n k F ->
  is_mat m n 1 (fun a _ => F a k) ->
  exists acc', horzcat acc m = Ok acc' /\ stacked acc' (S k) n (S k) F.
Proof.
  intros Hn [Hz Hs] Hm. unfold horzcat. destruct k as [|k].
  - rewrite (Hz eq_refl). cbn [is_empty SX_empty nrow ncol Nat.eqb orb]. exists m. split; [reflexivity|].
    split; [discriminate|]. intros _.
    eapply is_mat_ext; [exact Hm|].
    intros i j _ Hj. replace j with 0%nat by lia. reflexivity.
  - specialize (Hs ltac:(lia)).
    rewrite (is_mat_not_empty _ _ _ _ Hs), (is_mat_not_empty _ _ _ _ Hm) by lia.
    destruct Hs as (Hr & Hc & He). destruct Hm as (Hmr & Hmc & Hme).
    replace (nrow acc =? nrow m)%nat with true
      by (symmetry; apply Nat.eqb_eq; congruence).
    eexists; split; [reflexivity|]. split; [discriminate|]. intros _.
    repeat split; cbn [nrow ncol elt]; try lia.
    intros i j Hi Hj. rewrite Hc.
    destruct (j <? S k)%nat eqn:Hlt.
    + apply Nat.ltb_lt in Hlt. apply He; lia.
    + apply Nat.ltb_ge in Hlt. replace j with (S k) by lia.
      rewrite Nat.sub_diag. apply Hme; lia.
Qed.

(** [horzcat(m, acc)] puts the column [m] in front of the [k] columns of
    [acc]. *)
Lemma horzcat_cons acc m k n F g :
  (0 < n)%nat ->
  stacked acc k n k F ->
  is_mat m n 1 g ->
  exists acc', horzcat m acc = Ok acc' /\
    stacked acc' (S k) n (S k)
      (fun a b => if (b =? 0)%nat then g a 0%nat else F a (b - 1)%nat).
Proof.
  intros Hn [Hz Hs] Hm. unfold horzcat.
  rewrite (is_mat_not_empty _ _ _ _ Hm) by lia.
  destruct k as [|k].
  - rewrite (Hz eq_refl). cbn [is_empty SX_empty nrow ncol Nat.eqb orb]. exists m. split; [reflexivity|].
    split; [discriminate|]. intros _.
    eapply is_mat_ext; [exact Hm|].
    intros i j _ Hj. replace j with 0%nat by lia. reflexivity.
  - specialize (Hs ltac:(lia)).
    rewrite (is_mat_not_empty _ _ _ _ Hs) by lia.
    destruct Hs as (Hr & Hc & He). destruct Hm as (Hmr & Hmc & Hme).
    replace (nrow m =? nrow acc)%nat with true
      by (symmetry; apply Nat.eqb_eq; congruence).
    eexists; split; [reflexivity|]. split; [discriminate|]. intros _.
    repeat split; cbn [nrow ncol elt]; try lia.
    intros i j Hi Hj. rewrite Hmc.
    destruct j as [|j]; cbn [Nat.ltb Nat.leb Nat.eqb].
    + apply Hme; lia.
    + replace (S j - 1)%nat with j by lia. apply He; lia.
Qed.

(** [vertcat(acc, m)] appends the [r] rows of [m] below the [k] blocks of
    [acc]. *)
Lemma vertcat_snoc acc m k r c G :
  (0 < r)%nat -> (0 < c)%nat ->
  stacked acc k (k * r) c G ->
  is_mat m r c (fun q j => G (k * r + q)%nat j) ->
  exists acc', vertcat acc m = Ok acc' /\ stacked acc' (S k) (S k * r) c G.
Proof.
  intros Hr0 Hc0 [Hz Hs] Hm. unfold vertcat. destruct k as [|k].
  - rewrite (Hz eq_refl). cbn [is_empty SX_empty nrow ncol Nat.eqb orb]. exists m. split; [reflexivity|].
    split; [discriminate|]. intros _.
    replace (1 * r)%nat with r by lia. exact Hm.
  - specialize (Hs ltac:(lia)).
    rewrite (is_mat_not_empty _ _ _ _ Hs), (is_mat_not_empty _ _ _ _ Hm) by lia.
    destruct Hs as (Hr & Hc & He). destruct Hm as (Hmr & Hmc & Hme).
    replace (ncol acc =? ncol m)%nat with true
      by (symmetry; apply Nat.eqb_eq; congruence).
    eexists; split; [reflexivity|]. split; [discriminate|]. intros _.
    repeat split; cbn [nrow ncol elt]; try lia.
    intros i j Hi Hj. rewrite Hr.
    destruct (i <? S k * r)%nat eqn:Hlt.
    + apply Nat.ltb_lt in Hlt. apply He; lia.
    + apply Nat.ltb_ge in Hlt. rewrite Hme by lia. f_equal. lia.
Qed.

Lemma gp_pred_out_kind x kern beta x_train hyp k_inv pred_var out :
  gp_pred x kern beta x_train hyp k_inv pred_var = Ok out ->
  if pred_var then exists mu sg, out = MeanVar mu sg
  else exists mu, out = MeanOnly mu.
Proof.
  unfold gp_pred. intros H.
  destruct (kern x hyp (Some x_train) false) as [k_star|]; [|discriminate].
  simpl in H. destruct (mtimes k_star beta) as [mu|]; [|discriminate].
  simpl in H. destruct pred_var.
  - destruct k_inv as [k_inv|]; [|discriminate].
    destruct (kern x hyp None true) as [kd|]; [|discriminate]. simpl in H.
    destruct (mtimes k_star k_inv) as [kk|]; [|discriminate]. simpl in H.
    destruct (times kk k_star) as [kkk|]; [|discriminate]. simpl in H.
    destruct (minus kd (sum2 kkk)) as [sg|]; [|discriminate]. simpl in H.
    injection H as <-. eauto.
  - injection H as <-. eauto.
Qed.

Section LoopInvariant.

Variable jacobian : (SX -> result SX) -> SX -> SX.
Variables (x x_train beta : SX) (hyp : list Hyp) (kern_types : list string).
Variables (k_inv_training : option (list SX)) (pred_var compute_grads : bool).

(** The single-output GPs, their outputs at [x] and the shapes involved. *)
Variables (kerns : nat -> kernel) (hyps : nat -> Hyp) (kinvs : nat -> option SX).
Variable outs : nat -> gp_out.
Variables n r c : nat.

Let n_gps := ncol beta.
Let mu_i (i : nat) : SX -> result SX :=
  mu_func (kerns i) (column beta i) x_train (hyps i) (kinvs i) pred_var.
Let body := loop_body jacobian x x_train beta hyp kern_types k_inv_training
                      pred_var compute_grads.

Hypothesis Hgp : forall i, (i < n_gps)%nat ->
  is_nth_gp hyp kern_types k_inv_training i (kerns i) (hyps i) (kinvs i).
Hypothesis Hout : forall i, (i < n_gps)%nat ->
  gp_pred x (kerns i) (column beta i) x_train (hyps i) (kinvs i) pred_var
    = Ok (outs i) /\ out_columns n (outs i).
Hypothesis Hjac : compute_grads = true -> forall i, (i < n_gps)%nat ->
  nrow (jacobian (mu_i i) x) = r /\ ncol (jacobian (mu_i i) x) = c.
Hypothesis Hn : (0 < n)%nat.
Hypothesis Hr : (0 < r)%nat.
Hypothesis Hc : (0 < c)%nat.

Let loop_inv := loop_invariant pred_var compute_grads outs (fun i => jacobian (mu_i i) x) n r c.

Lemma loop_inv_init : loop_inv 0 (mkAcc SX_empty SX_empty SX_empty).
Proof.
  unfold loop_inv, loop_invariant, stacked. cbn [mu_all pred_sigma_all jac_mu_all].
  split; [|split].
  - split; [reflexivity | lia].
  - destruct pred_var; [split; [reflexivity | lia] | reflexivity].
  - destruct compute_grads; [split; [reflexivity | lia] | reflexivity].
Qed.

Lemma out_mean_is_mat i :
  (i < n_gps)%nat ->
  is_mat (out_mean (outs i)) n 1 (fun q _ => elt (out_mean (outs i)) q 0%nat).
Proof.
  intros Hi. destruct (Hout i Hi) as [_ Hcol].
  destruct (outs i) as [mu|mu sg]; cbn in *.
  - destruct Hcol as [H1 H2]. repeat split; try assumption.
    intros q j _ Hj. replace j with 0%nat by lia. reflexivity.
  - destruct Hcol as [[H1 H2] _]. repeat split; try assumption.
    intros q j _ Hj. replace j with 0%nat by lia. reflexivity.
Qed.

Lemma out_variance_is_mat i :
  (i < n_gps)%nat -> pred_var = true ->
  is_mat (out_variance (outs i)) n 1
         (fun q _ => elt (out_variance (outs i)) q 0%nat).
Proof.
  intros Hi Hpv. destruct (Hout i Hi) as [Hgo Hcol].
  apply gp_pred_out_kind in Hgo. rewrite Hpv in Hgo.
  destruct Hgo as (mu & sg & Heq). rewrite Heq in *. cbn in *.
  destruct Hcol as [_ [H1 H2]]. repeat split; try assumption.
  intros q j _ Hj. replace j with 0%nat by lia. reflexivity.
Qed.

Lemma loop_body_step i a :
  (i < n_gps)%nat -> loop_inv i a ->
  exists a', body a i = Ok a' /\ loop_inv (S i) a'.
Proof.
  intros Hi (Hmu & Hsg & Hj).
  destruct (Hgp i Hi) as ((kt & Hkt & Hkern) & Hh & Hki).
  destruct (Hout i Hi) as [Hgo Hcol].
  pose proof (gp_pred_out_kind _ _ _ _ _ _ _ _ Hgo) as Hkind.
  destruct (horzcat_snoc _ _ _ _ _ Hn Hmu (out_mean_is_mat i Hi))
    as (mu' & Hmu' & Hmu_inv).
  unfold body, loop_body, py_index. rewrite Hkt. cbn [bind].
  rewrite Hkern. cbn [bind]. rewrite Hh. cbn [bind].
  assert (Hk : match k_inv_training with
               | Some ks =>
                   do k <- match ks !! i with
                           | Some a0 => Ok a0
                           | None => Raise (IndexError "list index out of range")
                           end; Ok (Some k)
               | None => Ok None
               end = Ok (kinvs i)).
  { destruct k_inv_training as [ks|].
    - destruct Hki as (k & -> & ->). reflexivity.
    - rewrite Hki. reflexivity. }
  rewrite Hk. cbn [bind]. rewrite Hgo. fold (mu_i i).
  destruct (Bool.bool_dec pred_var true) as [Hpv|Hpv];
    [|apply Bool.not_true_is_false in Hpv]; rewrite Hpv in Hkind, Hsg |- *.
  - destruct Hkind as (mu & sg & Heq). rewrite Heq in *. cbn [bind].
    pose proof (out_variance_is_mat i Hi Hpv) as Hsm.
    rewrite Heq in Hsm. cbn [out_variance] in Hsm. cbn [out_mean] in Hmu'.
    destruct (horzcat_cons _ _ _ _ _ _ Hn Hsg Hsm) as (sg' & Hsg' & Hsg_inv).
    rewrite Hsg'. cbn [bind fst snd]. rewrite Hmu'. cbn [bind].
    assert (Hsg_inv' :
      stacked sg' (S i) n (S i)
        (fun q g => elt (out_variance (outs (S i - 1 - g))) q 0%nat)).
    { destruct Hsg_inv as [Hz Hs]. split; [exact Hz|]. intros Hp.
      eapply is_mat_ext; [apply Hs; exact Hp|].
      intros q g Hq Hg. destruct g as [|g]; cbn [Nat.eqb].
      - replace (S i - 1 - 0)%nat with i by lia. rewrite Heq. reflexivity.
      - f_equal. f_equal. f_equal. lia. }
    destruct (Bool.bool_dec compute_grads true) as [Hcg|Hcg];
      [|apply Bool.not_true_is_false in Hcg]; rewrite Hcg in Hj |- *.
    + destruct (Hjac Hcg i Hi) as [Hjr Hjc].
      destruct (vertcat_snoc (jac_mu_all a) (jacobian (mu_i i) x) i r c _ Hr Hc Hj)
        as (j' & Hj' & Hj_inv).
      { repeat split; try assumption. intros q j Hq Hjj.
        rewrite Nat.div_add_l, Nat.div_small, Nat.add_0_r by lia.
        replace (i * r + q)%nat with (q + i * r)%nat by lia.
        rewrite Nat.Div0.mod_add, Nat.mod_small by lia. reflexivity. }
      rewrite Hj'. cbn [bind].
      eexists; split; [reflexivity|].
      unfold loop_inv, loop_invariant. rewrite Hpv, Hcg. cbn [mu_all pred_sigma_all jac_mu_all].
      split; [assumption|]. split; assumption.
    + eexists; split; [reflexivity|].
      unfold loop_inv, loop_invariant. rewrite Hpv, Hcg. cbn [mu_all pred_sigma_all jac_mu_all].
      split; [assumption|]. split; assumption.
  - destruct Hkind as (mu & Heq). rewrite Heq in *. cbn [bind fst snd].
    cbn [out_mean] in Hmu'. rewrite Hmu'. cbn [bind].
    destruct (Bool.bool_dec compute_grads true) as [Hcg|Hcg];
      [|apply Bool.not_true_is_false in Hcg]; rewrite Hcg in Hj |- *.
    + destruct (Hjac Hcg i Hi) as [Hjr Hjc].
      destruct (vertcat_snoc (jac_mu_all a) (jacobian (mu_i i) x) i r c _ Hr Hc Hj)
        as (j' & Hj' & Hj_inv).
      { repeat split; try assumption. intros q j Hq Hjj.
        rewrite Nat.div_add_l, Nat.div_small, Nat.add_0_r by lia.
        replace (i * r + q)%nat with (q + i * r)%nat by lia.
        rewrite Nat.Div0.mod_add, Nat.mod_small by lia. reflexivity. }
      rewrite Hj'. cbn [bind].
      eexists; split; [reflexivity|].
      unfold loop_inv, loop_invariant. rewrite Hpv, Hcg. cbn [mu_all pred_sigma_all jac_mu_all].
      split; [assumption|]. split; assumption.
    + eexists; split; [reflexivity|].
      unfold loop_inv, loop_invariant. rewrite Hpv, Hcg. cbn [mu_all pred_sigma_all jac_mu_all].
      split; [assumption|]. split; assumption.
Qed.

(** The loop of [gp_pred_function] runs to its end and leaves the stacked
    means, variances and Jacobians in the accumulators. *)
Lemma loop_runs :
  exists a,
    for_range body (seq 0 n_gps) (mkAcc SX_empty SX_empty SX_empty) = Ok a /\
    loop_inv n_gps a.
Proof.
  destruct (for_range_inv loop_inv body n_gps 0 _ loop_inv_init) as (a & Ha & Hinv).
  - intros i a0 Hi Hinv. apply loop_body_step; [lia | exact Hinv].
  - exists a. split; assumption.
Qed.

End LoopInvariant.

(** ** The dictionary returned by [gp_pred_function] *)

(** The output [mu_1] of [pred_func] is the mean that [gp_pred] returns, as a
    function of the input. *)
Lemma mu_func_gp_pred_mean kern_i beta_i x_train hyp_i k_inv_i pred_var :
  mu_func kern_i beta_i x_train hyp_i k_inv_i pred_var
  = fun inp =>
      do out <- gp_pred inp kern_i beta_i x_train hyp_i k_inv_i pred_var;
      Ok (out_mean out).
Proof.
  apply functional_extensionality. intros inp. unfold mu_func.
  destruct (gp_pred inp kern_i beta_i x_train hyp_i k_inv_i pred_var) as [out|e];
    [|reflexivity].
  destruct out; reflexivity.
Qed.

(** C7.  When every single-output GP of the configuration is well formed and
    predicts at [x] (column vectors with [n] rows), and the Jacobian of each
    predicted mean with respect to the input is a non-empty [r] x [c] matrix,
    [gp_pred_function] called with [compute_grads = True] returns a dictionary
    whose key ["jac_mu"] holds the Jacobians of the predicted means stacked
    vertically in output order: rows [i*r .. i*r + r - 1] are the Jacobian,
    taken at [x], of the function that sends an input [inp] to the mean
    [gp_pred] returns for the [i]-th GP at [inp]. *)
Theorem gp_pred_function_jac_mu
    (jacobian : (SX -> result SX) -> SX -> SX) (x x_train beta : SX)
    (hyp : list Hyp) (kern_types : list string)
    (k_inv_training : option (list SX)) (pred_var : bool)
    (kerns : nat -> kernel) (hyps : nat -> Hyp) (kinvs : nat -> option SX)
    (outs : nat -> gp_out) (n r c : nat) :
  let jac_i i :=
    jacobian
      (fun inp =>
         do out <- gp_pred inp (kerns i) (column beta i) x_train (hyps i)
                           (kinvs i) pred_var;
         Ok (out_mean out)) x in
  (forall i, (i < ncol beta)%nat ->
     is_nth_gp hyp kern_types k_inv_training i (kerns i) (hyps i) (kinvs i)) ->
  (forall i, (i < ncol beta)%nat ->
     gp_pred x (kerns i) (column beta i) x_train (hyps i) (kinvs i) pred_var
       = Ok (outs i) /\ out_columns n (outs i)) ->
  (forall i, (i < ncol beta)%nat -> nrow (jac_i i) = r /\ ncol (jac_i i) = c) ->
  (0 < n)%nat -> (0 < r)%nat -> (0 < c)%nat ->
  exists (out_dict : gmap string SX) (jac_mu : SX),
    gp_pred_function jacobian x x_train beta hyp kern_types k_inv_training
                     pred_var true = Ok out_dict /\
    out_dict !! "jac_mu" = Some jac_mu /\
    nrow jac_mu = (ncol beta * r)%nat /\
    ((0 < ncol beta)%nat -> ncol jac_mu = c) /\
    forall i q j, (i < ncol beta)%nat -> (q < r)%nat -> (j < c)%nat ->
      elt jac_mu (i * r + q)%nat j = elt (jac_i i) q j.
Proof.
  intros jac_i Hgp Hout Hjac Hn Hr Hc.
  assert (Hmu : forall i,
            jacobian (mu_func (kerns i) (column beta i) x_train (hyps i) (kinvs i)
                              pred_var) x = jac_i i).
  { intros i. unfold jac_i. rewrite mu_func_gp_pred_mean. reflexivity. }
  assert (Hjac' : true = true -> forall i, (i < ncol beta)%nat ->
            nrow (jacobian (mu_func (kerns i) (column beta i) x_train (hyps i)
                                    (kinvs i) pred_var) x) = r /\
            ncol (jacobian (mu_func (kerns i) (column beta i) x_train (hyps i)
                                    (kinvs i) pred_var) x) = c).
  { intros _ i Hi. rewrite Hmu. exact (Hjac i Hi). }
  destruct (loop_runs jacobian x x_train beta hyp kern_types k_inv_training
              pred_var true kerns hyps kinvs outs n r c Hgp Hout Hjac' Hn Hr Hc)
    as (a & Hloop & _ & _ & Hz & Hs).
  exists (<["jac_mu" := jac_mu_all a]>
            (if pred_var
             then <["pred_sigma" := pred_sigma_all a]> (<["pred_mu" := mu_all a]> ∅)
             else <["pred_mu" := mu_all a]> ∅)), (jac_mu_all a).
  split; [|split; [apply lookup_insert_eq|]].
  - unfold gp_pred_function. rewrite Hloop. reflexivity.
  - destruct (Nat.eq_dec (ncol beta) 0%nat) as [H0|H0].
    + rewrite (Hz H0), H0. cbn [nrow ncol elt SX_empty].
      split; [reflexivity|]. split; intros; lia.
    + destruct (Hs ltac:(lia)) as (Hnr & Hnc & He).
      split; [exact Hnr|]. split; [intros _; exact Hnc|].
      intros i q j Hi Hq Hj. rewrite He by nia.
      rewrite Nat.div_add_l, Nat.div_small, Nat.add_0_r by lia.
      replace (i * r + q)%nat with (q + i * r)%nat by lia.
      rewrite Nat.Div0.mod_add, Nat.mod_small by lia. apply (f_equal (fun m => elt m q j)).
      apply Hmu.
Qed.

(** Under the same conditions the key ["pred_mu"] holds the means in output
    order, while, with [pred_var = True], the key ["pred_sigma"] holds the
    variances in the opposite order: column [g] is the variance of the GP
    number [n_gps - 1 - g]. *)
Lemma gp_pred_function_columns
    (jacobian : (SX -> result SX) -> SX -> SX) (x x_train beta : SX)
    (hyp : list Hyp) (kern_types : list string)
    (k_inv_training : option (list SX)) (pred_var : bool)
    (kerns : nat -> kernel) (hyps : nat -> Hyp) (kinvs : nat -> option SX)
    (outs : nat -> gp_out) (n : nat) :
  (forall i, (i < ncol beta)%nat ->
     is_nth_gp hyp kern_types k_inv_training i (kerns i) (hyps i) (kinvs i)) ->
  (forall i, (i < ncol beta)%nat ->
     gp_pred x (kerns i) (column beta i) x_train (hyps i) (kinvs i) pred_var
       = Ok (outs i) /\ out_columns n (outs i)) ->
  (0 < n)%nat ->
  exists (out_dict : gmap string SX) (pred_mu : SX),
    gp_pred_function jacobian x x_train beta hyp kern_types k_inv_training
                     pred_var false = Ok out_dict /\
    out_dict !! "pred_mu" = Some pred_mu /\
    stacked pred_mu (ncol beta) n (ncol beta)
      (fun q g => elt (out_mean (outs g)) q 0%nat) /\
    (pred_var = true ->
     exists pred_sigma,
       out_dict !! "pred_sigma" = Some pred_sigma /\
       stacked pred_sigma (ncol beta) n (ncol beta)
         (fun q g => elt (out_variance (outs (ncol beta - 1 - g)%nat)) q 0%nat)).
Proof.
  intros Hgp Hout Hn.
  destruct (loop_runs jacobian x x_train beta hyp kern_types k_inv_training
              pred_var false kerns hyps kinvs outs n 1 1 Hgp Hout
              ltac:(discriminate) Hn ltac:(lia) ltac:(lia))
    as (a & Hloop & Hmu & Hsg & _).
  unfold gp_pred_function. rewrite Hloop. cbn [bind].
  eexists; exists (mu_all a). split; [reflexivity|].
  destruct pred_var.
  - split; [|split; [exact Hmu|]].
    + rewrite lookup_insert_ne by discriminate. apply lookup_insert_eq.
    + intros _. exists (pred_sigma_all a). split; [apply lookup_insert_eq | exact Hsg].
  - split; [apply lookup_insert_eq|]. split; [exact Hmu | discriminate].
Qed.

(** ** Evaluations on concrete inputs *)

(** Closes a goal on reals left by evaluating the RBF kernel at coinciding
    points: the distance under [sqrt] is zero. *)
Ltac rbf_at_origin :=
  repeat match goal with
         | |- context [sqrt ?e] => replace e with 0 by lra; rewrite sqrt_0
         end;
  rewrite ?Rmult_0_r, ?exp_0; lra.

(** C3.  On the two-GP configuration of [Inputs], where GP number 0 has mean 1
    and variance 1/2 and GP number 1 has mean 2 and variance 1,
    [gp_pred_function] with [pred_var = True] returns ["pred_mu"] = [[1, 2]],
    in output order, and ["pred_sigma"] = [[1, 1/2]]: column 0 of
    ["pred_sigma"] is the variance of GP number 1. *)
Theorem pred_sigma_columns_reversed (jacobian : (SX -> result SX) -> SX -> SX) :
  exists (out_dict : gmap string SX) (pred_mu pred_sigma : SX)
         (mu_0 sigma_0 mu_1 sigma_1 : SX),
    gp_pred_function jacobian Inputs.x Inputs.x_train Inputs.beta Inputs.hyp
      Inputs.kern_types Inputs.k_inv_training true false = Ok out_dict /\
    out_dict !! "pred_mu" = Some pred_mu /\
    out_dict !! "pred_sigma" = Some pred_sigma /\
    gp_pred Inputs.x _k_rbf (column Inputs.beta 0) Inputs.x_train Inputs.hyp_0
      (Some Inputs.k_inv_0) true = Ok (MeanVar mu_0 sigma_0) /\
    gp_pred Inputs.x _k_rbf (column Inputs.beta 1) Inputs.x_train Inputs.hyp_1
      (Some Inputs.k_inv_1) true = Ok (MeanVar mu_1 sigma_1) /\
    (elt mu_0 0%nat 0%nat = 1 /\ elt sigma_0 0%nat 0%nat = 1 / 2) /\
    (elt mu_1 0%nat 0%nat = 2 /\ elt sigma_1 0%nat 0%nat = 1) /\
    (shape pred_mu = (1%nat, 2%nat) /\
     elt pred_mu 0%nat 0%nat = 1 /\ elt pred_mu 0%nat 1%nat = 2) /\
    (shape pred_sigma = (1%nat, 2%nat) /\
     elt pred_sigma 0%nat 0%nat = 1 /\ elt pred_sigma 0%nat 1%nat = 1 / 2).
Proof.
  do 7 eexists.
  split; [reflexivity|].
  split; [rewrite lookup_insert_ne by discriminate; apply lookup_insert_eq|].
  split; [apply lookup_insert_eq|].
  split; [reflexivity|]. split; [reflexivity|].
  repeat split; cbn; rbf_at_origin.
Qed.

(** C4.  [_k_lin] called with [diag_only = True] on the two points 1 and 2 returns
    the full 2 x 2 kernel matrix [[1, 2], [2, 4]], the same as with
    [diag_only = False], and not the vector (1, 4) of its diagonal. *)
Theorem k_lin_diag_only_full_matrix :
  exists K,
    _k_lin Inputs.x_two Inputs.hyp_lin None true = Ok K /\
    _k_lin Inputs.x_two Inputs.hyp_lin (Some Inputs.x_two) false = Ok K /\
    shape K = (2%nat, 2%nat) /\
    elt K 0%nat 0%nat = 1 /\ elt K 0%nat 1%nat = 2 /\
    elt K 1%nat 0%nat = 2 /\ elt K 1%nat 1%nat = 4.
Proof.
  eexists. split; [reflexivity|]. split; [reflexivity|]. split; [reflexivity|].
  repeat split; cbn; rewrite sqrt_1; lra.
Qed.

(** [_k_lin] never looks at [diag_only]. *)
Lemma k_lin_ignores_diag_only x hyp y :
  _k_lin x hyp y true = _k_lin x hyp y false.
Proof. reflexivity. Qed.

(** With [diag_only = True], [_k_rbf] returns the 1 x 1 matrix holding the
    variance, whatever the number of rows of [x]. *)
Lemma k_rbf_diag_only x hyp y ls s2 :
  rbf_lengthscales hyp = Some ls ->
  rbf_variance hyp = Some s2 ->
  exists K, _k_rbf x hyp y true = Ok K /\ is_mat K 1 1 (fun _ _ => s2).
Proof.
  intros Hl Hv. unfold _k_rbf. rewrite Hl, Hv. cbn [hyp_get bind].
  eexists; split; [reflexivity|]. repeat split.
Qed.

(** The product kernel with [diag_only = True] on the same two points is a
    2 x 2 matrix as well. *)
Lemma k_prod_lin_rbf_diag_only_full_matrix :
  exists K,
    _k_prod_lin_rbf Inputs.x_two Inputs.hyp_lin None true = Ok K /\
    shape K = (2%nat, 2%nat).
Proof. eexists. split; reflexivity. Qed.

(** C1.  With the product kernel, the two prediction points 1 and 2, the
    training point 1, [beta = [[1]]] and [k_inv_training = [[1/2]]],
    [kern(x, hyp, diag_only = True)] is the full 2 x 2 matrix
    [[1, 2], [2, 4]] and [gp_pred] returns, beside the 2 x 1 mean, a 2 x 2
    matrix in the place of the variance vector: the column of diagonal
    entries (1/2 for the first point) is subtracted from every column, so
    that entry (0, 1) is [2 - 1/2], which is no variance of any point. *)
Theorem gp_pred_variance_full_matrix :
  exists k_diag pred_mu pred_sigm,
    _k_prod_lin_rbf Inputs.x_two Inputs.hyp_lin None true = Ok k_diag /\
    gp_pred Inputs.x_two _k_prod_lin_rbf (column Inputs.beta 0)
      ProductInputs.x_train Inputs.hyp_lin (Some Inputs.k_inv_0) true
      = Ok (MeanVar pred_mu pred_sigm) /\
    shape k_diag = (2%nat, 2%nat) /\
    shape pred_mu = (2%nat, 1%nat) /\
    shape pred_sigm = (2%nat, 2%nat) /\
    elt pred_mu 0%nat 0%nat = 1 /\
    elt pred_sigm 0%nat 0%nat = 1 / 2 /\
    elt pred_sigm 0%nat 1%nat = 3 / 2.
Proof.
  do 3 eexists. split; [reflexivity|]. split; [reflexivity|].
  split; [reflexivity|]. split; [reflexivity|]. split; [reflexivity|].
  repeat split; cbn; rewrite ?sqrt_1; rbf_at_origin.
Qed.

(** [gp_pred] raises what the kernel or the product [K_star . beta] raises,
    with [pred_var] false as well, and before it looks at [pred_var] and
    [k_inv_training]: a [KeyError] for a [hyp] without its keys, a casadi
    [RuntimeError] for a [beta] with the wrong number of rows. *)
Lemma gp_pred_raises_before_the_check :
  gp_pred Inputs.x _k_rbf (column Inputs.beta 0) Inputs.x_train
    (mkHyp None None None) None false = Raise (KeyError "rbf_lengthscales") /\
  gp_pred Inputs.x_two _k_rbf (of_rows 1 [[1]; [1]; [1]]) Inputs.x_train
    Inputs.hyp_0 None false
    = Raise (RuntimeError "Dimension mismatch for matrix product") /\
  gp_pred Inputs.x _k_rbf (column Inputs.beta 0) Inputs.x_train
    (mkHyp None None None) None true = Raise (KeyError "rbf_lengthscales").
Proof. repeat split. Qed.

(** ** The functions written under [GPytorchSSM] *)

Section GPytorchSSMFacts.

Import GaussianProcess.

Variable tensor : Type.
Variable np_shape : tensor -> list nat.
Variable torch_stack : tensor -> tensor -> nat -> result tensor.
Variable tensor_item : tensor -> nat -> nat -> result tensor.
Variable compute_jacobian : (tensor -> result tensor) -> tensor -> result tensor.
Variable hessian_hessian : tensor -> tensor -> result tensor.

Let SSM := GPytorchSSM tensor.
Let predict' := predict tensor torch_stack compute_jacobian.
Let linearize_predict' :=
  linearize_predict tensor np_shape torch_stack tensor_item compute_jacobian
                    hessian_hessian.
Let _compute_hessian_mean' :=
  _compute_hessian_mean tensor torch_stack tensor_item hessian_hessian.

(** The names a function nested in [GPytorchSSM] can see besides its locals. *)
Let visible : gset string := module_globals ∪ GPytorchSSM_scope.

(** C5.  Called with [jacobians = False], [predict] never returns a tuple: it
    either raises in one of its collaborators or returns [None]. *)
Theorem predict_without_jacobians (self : SSM) (states actions : tensor)
    (full_cov : bool) :
  predict' self states actions false full_cov = Ok (PyNone tensor) \/
  exists e, predict' self states actions false full_cov = Raise e.
Proof.
  unfold predict', predict.
  destruct (torch_stack states actions 1) as [inp|e]; [|right; eauto].
  cbn [bind].
  destruct (mean tensor (pytorch_gp tensor self) inp) as [m|e]; [|right; eauto].
  cbn [bind].
  destruct (kernel tensor (pytorch_gp tensor self) inp) as [v|e]; [|right; eauto].
  left. reflexivity.
Qed.

(** When the collaborators succeed the result is [None], where the
    docstring announces the pair of the mean and the variance. *)
Lemma predict_without_jacobians_none (self : SSM) (states actions : tensor)
    (full_cov : bool) (inp pred_mean pred_var : tensor) :
  torch_stack states actions 1 = Ok inp ->
  mean tensor (pytorch_gp tensor self) inp = Ok pred_mean ->
  kernel tensor (pytorch_gp tensor self) inp = Ok pred_var ->
  predict' self states actions false full_cov = Ok (PyNone tensor).
Proof.
  intros Hs Hm Hk. unfold predict', predict.
  rewrite Hs. cbn [bind]. rewrite Hm. cbn [bind]. rewrite Hk. reflexivity.
Qed.

Lemma np_not_visible : "np"%string ∉ visible.
Proof.
  unfold visible, module_globals, GPytorchSSM_scope.
  rewrite elem_of_union, !elem_of_list_to_set, !list_elem_of_In.
  cbn [In]. intros [H|H]; repeat (destruct H as [H|H]; [discriminate H|]);
    exact H.
Qed.

(** C6.  [linearize_predict] raises [NameError] on its first statement, for every
    input and for [jacobians = True] in particular: the module does not bind
    the name [np]. *)
Theorem linearize_predict_name_error (self : SSM) (states actions : tensor)
    (jacobians full_cov : bool) :
  linearize_predict' visible self states actions jacobians full_cov
    = Raise (NameError "np").
Proof.
  unfold linearize_predict', linearize_predict, load_global.
  destruct (decide ("np"%string ∈ visible)) as [Hin|Hout]; [|reflexivity].
  exfalso. exact (np_not_visible Hin).
Qed.

(** Were [np] bound, the same statement would raise [NameError] for [state]:
    the parameter is called [states]. *)
Lemma linearize_predict_state_unbound (globals : gset string) (self : SSM)
    (states actions : tensor) (jacobians full_cov : bool) :
  "np"%string ∈ globals -> "state"%string ∉ globals ->
  linearize_predict' globals self states actions jacobians full_cov
    = Raise (NameError "state").
Proof.
  intros Hnp Hstate.
  unfold linearize_predict', linearize_predict, load_array, load_global.
  rewrite (decide_True _ _ Hnp). cbn [bind].
  rewrite !lookup_insert_ne by discriminate. rewrite lookup_empty.
  rewrite (decide_False _ _ Hstate). reflexivity.
Qed.

(** [_compute_hessian_mean] calls [hessian.hessian], and the module imports
    only [compute_hessian] from [hessian]: with at least one state dimension
    it raises [NameError]. *)
Lemma compute_hessian_mean_name_error (globals : gset string) (self : SSM)
    (states actions inp : tensor) :
  "hessian"%string ∉ globals ->
  torch_stack states actions 1 = Ok inp ->
  (0 < num_states tensor self)%nat ->
  _compute_hessian_mean' globals self states actions = Raise (NameError "hessian").
Proof.
  intros Hh Hs Hn. unfold _compute_hessian_mean', _compute_hessian_mean.
  rewrite Hs. cbn [bind].
  destruct (num_states tensor self) as [|k]; [lia|].
  cbn [seq hessian_rows]. unfold load_global.
  rewrite (decide_False _ _ Hh). reflexivity.
Qed.

Lemma hessian_not_visible : "hessian"%string ∉ visible.
Proof.
  unfold visible, module_globals, GPytorchSSM_scope.
  rewrite elem_of_union, !elem_of_list_to_set, !list_elem_of_In.
  cbn [In]. intros [H|H]; repeat (destruct H as [H|H]; [discriminate H|]);
    exact H.
Qed.

End GPytorchSSMFacts.

(** ** The hypotheses of the theorems hold on the inputs of [Inputs] *)

Lemma k_rbf_entries_witness :
  exists K,
    _k_rbf Inputs.x_two Inputs.hyp_0 (Some Inputs.x_train) false = Ok K /\
    is_mat K 2 1
      (fun i j =>
         1 * exp (- (1 / 2) *
                  rsum 1 (fun d => ((elt Inputs.x_two i d - elt Inputs.x_train j d)
                                    / nth d [1] 0) ^ 2))).
Proof.
  exact (proj1 (k_rbf_entries Inputs.x_two Inputs.x_train Inputs.hyp_0 [1] 1
                  eq_refl eq_refl eq_refl eq_refl)).
Defined.

Lemma gp_pred_mean_variance_witness :
  _k_rbf Inputs.x Inputs.hyp_0 (Some Inputs.x_train) false = Ok Inputs.k_star /\
  _k_rbf Inputs.x Inputs.hyp_0 None true = Ok Inputs.k_diag /\
  (exists pred_mu,
     gp_pred Inputs.x _k_rbf (column Inputs.beta 0) Inputs.x_train Inputs.hyp_0
       None false = Ok (MeanOnly pred_mu)) /\
  (exists pred_mu pred_sigm,
     gp_pred Inputs.x _k_rbf (column Inputs.beta 0) Inputs.x_train Inputs.hyp_0
       (Some Inputs.k_inv_0) true = Ok (MeanVar pred_mu pred_sigm)).
Proof.
  split; [reflexivity|]. split; [reflexivity|].
  destruct (gp_pred_mean_variance Inputs.x _k_rbf (column Inputs.beta 0)
              Inputs.x_train Inputs.hyp_0 Inputs.k_star eq_refl eq_refl)
    as [Hmean Hvar].
  split.
  - destruct (Hmean None) as (mu & Hmu & _). exists mu. exact Hmu.
  - destruct (Hvar Inputs.k_inv_0 Inputs.k_diag eq_refl eq_refl eq_refl eq_refl
                   eq_refl) as (mu & sg & H & _).
    exists mu, sg. exact H.
Defined.

Lemma gp_pred_value_error_witness :
  (exists msg,
     gp_pred Inputs.x _k_rbf (column Inputs.beta 0) Inputs.x_train Inputs.hyp_0
       None true = Raise (ValueError msg)) /\
  gp_pred Inputs.x _k_rbf (column Inputs.beta 0) Inputs.x_train Inputs.hyp_0
    (Some Inputs.k_inv_0) false = Ok (MeanOnly Inputs.pred_mu).
Proof.
  assert (Hnv : forall msg,
            _k_rbf Inputs.x Inputs.hyp_0 None true <> Raise (ValueError msg))
    by (intros msg H; discriminate H).
  split.
  - apply (gp_pred_value_error Inputs.x _k_rbf (column Inputs.beta 0)
             Inputs.x_train Inputs.hyp_0 None true Inputs.k_star Inputs.pred_mu
             eq_refl eq_refl Hnv).
    split; reflexivity.
  - apply (gp_pred_value_error Inputs.x _k_rbf (column Inputs.beta 0)
             Inputs.x_train Inputs.hyp_0 (Some Inputs.k_inv_0) false
             Inputs.k_star Inputs.pred_mu eq_refl eq_refl Hnv).
    reflexivity.
Defined.

Lemma get_kernel_function_cases_witness :
  "lin"%string <> "rbf"%string /\
  "lin"%string <> "prod_lin_rbf"%string /\
  _get_kernel_function "lin" = Raise (ValueError "Unknown kernel type").
Proof.
  split; [discriminate|]. split; [discriminate|].
  apply (get_kernel_function_cases "lin"); discriminate.
Defined.

Lemma gp_pred_function_jac_mu_witness :
  exists (out_dict : gmap string SX) (jac_mu : SX),
    gp_pred_function Inputs.jacobian Inputs.x Inputs.x_train Inputs.beta
      Inputs.hyp Inputs.kern_types Inputs.k_inv_training true true = Ok out_dict /\
    out_dict !! "jac_mu" = Some jac_mu /\
    nrow jac_mu = 2%nat.
Proof.
  destruct (gp_pred_function_jac_mu Inputs.jacobian Inputs.x Inputs.x_train
              Inputs.beta Inputs.hyp Inputs.kern_types Inputs.k_inv_training
              true (fun _ => _k_rbf) Inputs.hyps Inputs.kinvs (Inputs.outs true)
              1 1 1)
    as (d & J & Hd & HJ & Hrows & _).
  - intros i Hi. destruct i as [|[|i]]; [| |cbn in Hi; lia];
      (split; [eexists; split; reflexivity|]); split; try reflexivity;
      eexists; split; reflexivity.
  - intros i Hi. destruct i as [|[|i]]; [| |cbn in Hi; lia];
      (split; [reflexivity|]); repeat split.
  - intros i Hi. split; reflexivity.
  - lia.
  - lia.
  - lia.
  - exists d, J. split; [exact Hd|]. split; [exact HJ|]. exact Hrows.
Defined.

(** * Further properties of the kernels *)

(** The full RBF kernel matrix, entry by entry. *)
Lemma k_rbf_matrix (x y : SX) (hyp : Hyp) (ls : list R) (s2 : R) :
  rbf_lengthscales hyp = Some ls ->
  rbf_variance hyp = Some s2 ->
  ncol x = length ls ->
  ncol y = length ls ->
  exists K, _k_rbf x hyp (Some y) false = Ok K /\
    is_mat K (nrow x) (nrow y) (rbf_value ls s2 x y).
Proof.
  intros Hl Hv Hx Hy.
  unfold _k_rbf. rewrite Hl, Hv. simpl bind. cbv iota.
  destruct (binop_same Rdiv x (repmat (row_vector ls) (nrow x) 1))
    as (xs & Hxs & Hxs1 & Hxs2 & Hxs3); [simpl; lia | simpl; lia|].
  destruct (binop_same Rdiv y (repmat (row_vector ls) (nrow y) 1))
    as (ys & Hys & Hys1 & Hys2 & Hys3); [simpl; lia | simpl; lia|].
  unfold rdiv. rewrite Hxs. simpl bind. rewrite Hys. simpl bind.
  destruct (unscaled_dist_ok xs ys) as (r & Hr & Hr1 & Hr2 & Hr3); [congruence|].
  rewrite Hr. simpl bind.
  eexists; split; [reflexivity|].
  repeat split; simpl; try congruence.
  intros i j Hi Hj. unfold rbf_value.
  rewrite Hr3 by congruence.
  rewrite sqrt_sq_nonneg by apply rsum_sq_nonneg.
  f_equal. f_equal.
  replace (-0.5) with (- (1 / 2)) by lra.
  f_equal. rewrite Hxs2, Hx.
  apply rsum_ext. intros k Hk.
  rewrite Hxs3, Hys3 by lia.
  rewrite !row_vector_rep_elt by lia.
  simpl. unfold Rdiv. lra.
Qed.

Lemma rbf_value_sym ls s2 x y i j :
  rbf_value ls s2 x y i j = rbf_value ls s2 y x j i.
Proof.
  unfold rbf_value. f_equal. f_equal. f_equal.
  apply rsum_ext. intros d _. unfold Rdiv. ring.
Qed.

Lemma rbf_value_same ls s2 x i : rbf_value ls s2 x x i i = s2.
Proof.
  unfold rbf_value. rewrite rsum_zero.
  - rewrite Rmult_0_r, exp_0. lra.
  - intros d _. unfold Rdiv. ring.
Qed.

Lemma exp_nonpos_le_1 v : v <= 0 -> exp v <= 1.
Proof.
  intros [Hlt | ->].
  - rewrite <- exp_0. left. apply exp_increasing. exact Hlt.
  - rewrite exp_0. lra.
Qed.

Lemma rbf_value_bounds ls s2 x y i j :
  0 <= s2 -> 0 <= rbf_value ls s2 x y i j <= s2.
Proof.
  intros Hs. unfold rbf_value.
  set (S := rsum _ _).
  assert (HS : 0 <= S) by apply rsum_sq_nonneg.
  assert (H1 : exp (- (1 / 2) * S) <= 1) by (apply exp_nonpos_le_1; lra).
  pose proof (exp_pos (- (1 / 2) * S)) as H0.
  split; nra.
Qed.

(** X1 ([_unscaled_dist]).  For two point sets with the same number of
    columns, [_unscaled_dist] returns the n_x x n_y matrix of Euclidean
    distances [sqrt (sum_k (x_ik - y_jk)^2)]; its entries are not negative
    and the distance of a point to itself is zero. *)
Theorem unscaled_dist_euclidean (x y : SX) :
  ncol x = ncol y ->
  exists r,
    _unscaled_dist x y = Ok r /\
    is_mat r (nrow x) (nrow y)
      (fun i j => sqrt (rsum (ncol x) (fun k => (elt x i k - elt y j k) ^ 2))) /\
    (forall i j, (i < nrow x)%nat -> (j < nrow y)%nat -> 0 <= elt r i j) /\
    (forall i j, (i < nrow x)%nat -> (j < nrow y)%nat ->
       (forall k, (k < ncol x)%nat -> elt x i k = elt y j k) -> elt r i j = 0).
Proof.
  intros Hc. destruct (unscaled_dist_ok x y Hc) as (r & Hr & Hmat).
  exists r. split; [exact Hr|]. split; [exact Hmat|].
  destruct Hmat as (_ & _ & He). split.
  - intros i j Hi Hj. rewrite He by assumption. apply sqrt_pos.
  - intros i j Hi Hj Heq. rewrite He by assumption.
    rewrite rsum_zero; [apply sqrt_0|].
    intros k Hk. rewrite (Heq k Hk). ring.
Qed.

(** X2 ([_k_rbf]).  Exchanging the two point sets transposes the RBF kernel
    matrix: entry (i, j) of [_k_rbf(x, hyp, y)] is entry (j, i) of
    [_k_rbf(y, hyp, x)]. *)
Theorem k_rbf_transpose (x y : SX) (hyp : Hyp) (ls : list R) (s2 : R) :
  rbf_lengthscales hyp = Some ls ->
  rbf_variance hyp = Some s2 ->
  ncol x = length ls ->
  ncol y = length ls ->
  exists K K',
    _k_rbf x hyp (Some y) false = Ok K /\
    _k_rbf y hyp (Some x) false = Ok K' /\
    shape K = (nrow x, nrow y) /\ shape K' = (nrow y, nrow x) /\
    forall i j, (i < nrow x)%nat -> (j < nrow y)%nat -> elt K i j = elt K' j i.
Proof.
  intros Hl Hv Hx Hy.
  destruct (k_rbf_matrix x y hyp ls s2 Hl Hv Hx Hy) as (K & HK & HK1 & HK2 & HK3).
  destruct (k_rbf_matrix y x hyp ls s2 Hl Hv Hy Hx) as (K' & HK' & HK'1 & HK'2 & HK'3).
  exists K, K'. split; [exact HK|]. split; [exact HK'|].
  unfold shape. rewrite HK1, HK2, HK'1, HK'2. split; [reflexivity|].
  split; [reflexivity|].
  intros i j Hi Hj. rewrite HK3, HK'3 by assumption. apply rbf_value_sym.
Qed.

(** X3 ([_k_rbf]).  The kernel matrix of a point set with itself is
    symmetric and its diagonal is constant, equal to the variance, which is
    the number [_k_rbf] returns with [diag_only = True]. *)
Theorem k_rbf_gram_diagonal (x : SX) (hyp : Hyp) (ls : list R) (s2 : R) :
  rbf_lengthscales hyp = Some ls ->
  rbf_variance hyp = Some s2 ->
  ncol x = length ls ->
  exists K Kd,
    _k_rbf x hyp None false = Ok K /\
    _k_rbf x hyp None true = Ok Kd /\
    shape K = (nrow x, nrow x) /\
    (forall i j, (i < nrow x)%nat -> (j < nrow x)%nat -> elt K i j = elt K j i) /\
    (forall i, (i < nrow x)%nat -> elt K i i = s2) /\
    elt Kd 0%nat 0%nat = s2.
Proof.
  intros Hl Hv Hx.
  destruct (k_rbf_matrix x x hyp ls s2 Hl Hv Hx Hx) as (K & HK & HK1 & HK2 & HK3).
  destruct (k_rbf_diag_only x hyp None ls s2 Hl Hv) as (Kd & HKd & _ & _ & HKd3).
  exists K, Kd. split; [exact HK|]. split; [exact HKd|].
  unfold shape. rewrite HK1, HK2. split; [reflexivity|].
  split; [|split].
  - intros i j Hi Hj. rewrite !HK3 by assumption. apply rbf_value_sym.
  - intros i Hi. rewrite HK3 by assumption. apply rbf_value_same.
  - apply HKd3; lia.
Qed.

(** X4 ([_k_rbf]).  With a variance that is not negative, every entry of
    the RBF kernel matrix lies between 0 and the variance. *)
Theorem k_rbf_bounded (x y : SX) (hyp : Hyp) (ls : list R) (s2 : R) :
  rbf_lengthscales hyp = Some ls ->
  rbf_variance hyp = Some s2 ->
  ncol x = length ls ->
  ncol y = length ls ->
  0 <= s2 ->
  exists K,
    _k_rbf x hyp (Some y) false = Ok K /\
    forall i j, (i < nrow x)%nat -> (j < nrow y)%nat -> 0 <= elt K i j <= s2.
Proof.
  intros Hl Hv Hx Hy Hs.
  destruct (k_rbf_matrix x y hyp ls s2 Hl Hv Hx Hy) as (K & HK & _ & _ & HK3).
  exists K. split; [exact HK|].
  intros i j Hi Hj. rewrite HK3 by assumption. apply rbf_value_bounds. exact Hs.
Qed.

Lemma rsum_swap n m (f : nat -> nat -> R) :
  rsum n (fun i => rsum m (fun j => f i j))
  = rsum m (fun j => rsum n (fun i => f i j)).
Proof.
  induction n as [|n IH]; cbn [rsum].
  - symmetry. apply rsum_zero. reflexivity.
  - rewrite IH, <- rsum_plus. reflexivity.
Qed.

(** A quadratic form of a Gram matrix of weighted inner products is a
    weighted sum of squares. *)
Lemma quad_sum n D (c v : nat -> R) (X : nat -> nat -> R) :
  rsum n (fun i => rsum n (fun j =>
    c i * c j * rsum D (fun d => v d * X i d * X j d)))
  = rsum D (fun d => v d * (rsum n (fun i => c i * X i d)) ^ 2).
Proof.
  transitivity
    (rsum n (fun i => rsum D (fun d =>
       (v d * (c i * X i d)) * rsum n (fun j => c j * X j d)))).
  - apply rsum_ext. intros i _.
    transitivity
      (rsum n (fun j => rsum D (fun d =>
         (v d * (c i * X i d)) * (c j * X j d)))).
    + apply rsum_ext. intros j _.
      rewrite <- (rsum_scal D (c i * c j)). apply rsum_ext. intros d _. ring.
    + rewrite rsum_swap. apply rsum_ext. intros d _.
      apply (rsum_scal n (v d * (c i * X i d))).
  - rewrite rsum_swap. apply rsum_ext. intros d _.
    transitivity
      (rsum n (fun i => (v d * rsum n (fun j => c j * X j d)) * (c i * X i d))).
    + apply rsum_ext. intros i _. ring.
    + rewrite (rsum_scal n (v d * rsum n (fun j => c j * X j d))). ring.
Qed.

(** The full linear kernel matrix, entry by entry. *)
Lemma k_lin_matrix (x y : SX) (hyp : Hyp) (var : list R) (diag_only : bool) :
  lin_variances hyp = Some var ->
  (forall d, (d < length var)%nat -> 0 <= nth d var 0) ->
  ncol x = length var ->
  ncol y = length var ->
  exists K, _k_lin x hyp (Some y) diag_only = Ok K /\
    is_mat K (nrow x) (nrow y) (lin_value var x y).
Proof.
  intros Hv Hpos Hx Hy. unfold _k_lin. rewrite Hv. cbn [hyp_get bind].
  destruct (binop_same Rmult x (SX_sqrt (repmat (row_vector var) (nrow x) 1)))
    as (xv & Hxv & Hxv1 & Hxv2 & Hxv3); [simpl; lia | simpl; lia|].
  destruct (binop_same Rmult y (SX_sqrt (repmat (row_vector var) (nrow y) 1)))
    as (yv & Hyv & Hyv1 & Hyv2 & Hyv3); [simpl; lia | simpl; lia|].
  unfold times. rewrite Hxv. cbn [bind]. rewrite Hyv. cbn [bind].
  destruct (mtimes_ok xv (transpose yv)) as (K & HK & HK1 & HK2 & HK3);
    [simpl; congruence|].
  exists K. split; [exact HK|].
  cbn [nrow ncol transpose] in HK2, HK3.
  repeat split; try congruence.
  intros i j Hi Hj. rewrite HK3 by congruence.
  unfold lin_value. rewrite Hxv2, Hx.
  apply rsum_ext. intros k Hk. cbn [elt transpose].
  rewrite Hxv3, Hyv3 by lia.
  cbn [elt SX_sqrt map1]. rewrite !row_vector_rep_elt by lia.
  transitivity (sqrt (nth k var 0) * sqrt (nth k var 0) * elt x i k * elt y j k);
    [ring|].
  rewrite sqrt_sq_nonneg by (apply Hpos; exact Hk). reflexivity.
Qed.

(** X5 ([_k_lin]).  With variances that are not negative, the linear kernel
    of [x] and [y] is the n_x x n_y matrix with entries
    [sum_d var_d * x_id * y_jd], whatever [diag_only] is; with [y] omitted
    it is the kernel of [x] with itself. *)
Theorem k_lin_entries (x y : SX) (hyp : Hyp) (var : list R) (diag_only : bool) :
  lin_variances hyp = Some var ->
  (forall d, (d < length var)%nat -> 0 <= nth d var 0) ->
  ncol x = length var ->
  ncol y = length var ->
  (exists K, _k_lin x hyp (Some y) diag_only = Ok K /\
     is_mat K (nrow x) (nrow y)
       (fun i j => rsum (length var) (fun d => nth d var 0 * elt x i d * elt y j d)))
  /\ _k_lin x hyp None diag_only = _k_lin x hyp (Some x) diag_only.
Proof.
  intros Hv Hpos Hx Hy. split; [|reflexivity].
  exact (k_lin_matrix x y hyp var diag_only Hv Hpos Hx Hy).
Qed.

(** X6 ([_k_lin]).  The linear kernel matrix of a point set with itself is
    symmetric and positive semi-definite: [sum_i sum_j c_i c_j K_ij] is not
    negative for any coefficients [c]. *)
Theorem k_lin_gram_psd (x : SX) (hyp : Hyp) (var : list R) (c : nat -> R) :
  lin_variances hyp = Some var ->
  (forall d, (d < length var)%nat -> 0 <= nth d var 0) ->
  ncol x = length var ->
  exists K,
    _k_lin x hyp None false = Ok K /\
    shape K = (nrow x, nrow x) /\
    (forall i j, (i < nrow x)%nat -> (j < nrow x)%nat -> elt K i j = elt K j i) /\
    0 <= quad_form K c.
Proof.
  intros Hv Hpos Hx.
  destruct (k_lin_matrix x x hyp var false Hv Hpos Hx Hx)
    as (K & HK & HK1 & HK2 & HK3).
  exists K. split; [exact HK|]. unfold shape. rewrite HK1, HK2.
  split; [reflexivity|]. split.
  - intros i j Hi Hj. rewrite !HK3 by assumption. unfold lin_value.
    apply rsum_ext. intros d _. ring.
  - unfold quad_form. rewrite HK1, HK2.
    rewrite (rsum_ext (nrow x) _
               (fun i => rsum (nrow x) (fun j =>
                  c i * c j *
                  rsum (length var)
                    (fun d => nth d var 0 * elt x i d * elt x j d)))).
    + rewrite quad_sum. apply rsum_nonneg. intros d Hd.
      apply Rmult_le_pos; [apply Hpos; exact Hd | apply pow2_ge_0].
    + intros i Hi. apply rsum_ext. intros j Hj.
      rewrite HK3 by assumption. reflexivity.
Qed.

(** X7 ([_k_prod_lin_rbf]).  The product kernel matrix is the entrywise
    product of the RBF and the linear kernel matrices. *)
Theorem k_prod_lin_rbf_entries (x y : SX) (hyp : Hyp) (ls var : list R) (s2 : R) :
  rbf_lengthscales hyp = Some ls ->
  rbf_variance hyp = Some s2 ->
  lin_variances hyp = Some var ->
  (forall d, (d < length var)%nat -> 0 <= nth d var 0) ->
  ncol x = length ls -> ncol y = length ls -> length var = length ls ->
  exists K,
    _k_prod_lin_rbf x hyp (Some y) false = Ok K /\
    is_mat K (nrow x) (nrow y)
      (fun i j => rbf_value ls s2 x y i j * lin_value var x y i j).
Proof.
  intros Hl Hs Hv Hpos Hx Hy Hlen.
  destruct (k_rbf_matrix x y hyp ls s2 Hl Hs Hx Hy) as (Kr & HKr & Hr1 & Hr2 & Hr3).
  destruct (k_lin_matrix x y hyp var false Hv Hpos) as (Kl & HKl & Hl1 & Hl2 & Hl3);
    [congruence | congruence|].
  destruct (binop_same Rmult Kr Kl) as (K & HK & HK1 & HK2 & HK3);
    [congruence | congruence|].
  exists K. split.
  - unfold _k_prod_lin_rbf. rewrite Hl, Hs, Hv. cbn [hyp_get bind].
    rewrite HKr. cbn [bind]. rewrite HKl. cbn [bind]. exact HK.
  - repeat split; try congruence.
    intros i j Hi Hj. rewrite HK3 by congruence.
    rewrite Hr3, Hl3 by assumption. reflexivity.
Qed.

(** ** Exceptions of the kernels *)

Lemma hyp_get_raise {A : Type} (field : option A) key e :
  hyp_get field key = Raise e -> e = KeyError key.
Proof. destruct field; [discriminate|]. intros H. injection H as <-. reflexivity. Qed.

Lemma casadi_error_kind e : (exists msg, e = RuntimeError msg) -> key_or_casadi_error e.
Proof. intros H. right. exact H. Qed.

Lemma unscaled_dist_raise x y e :
  _unscaled_dist x y = Raise e -> exists msg, e = RuntimeError msg.
Proof.
  unfold _unscaled_dist. intros H.
  destruct (mtimes x (transpose y)) as [xy|e0] eqn:E1; cbn [bind] in H;
    [|injection H as <-; eapply mtimes_raise; exact E1].
  destruct (plus (scale (-2) xy) (repmat (sum2 (sq x)) 1 (nrow y)))
    as [s|e0] eqn:E2; cbn [bind] in H;
    [|injection H as <-; eapply binop_raise; exact E2].
  destruct (plus s (repmat (transpose (sum2 (sq y))) (nrow x) 1))
    as [r2|e0] eqn:E3; cbn [bind] in H;
    [discriminate | injection H as <-; eapply binop_raise; exact E3].
Qed.

Lemma k_rbf_raise x hyp y diag_only e :
  _k_rbf x hyp y diag_only = Raise e -> key_or_casadi_error e.
Proof.
  unfold _k_rbf. intros H.
  destruct (hyp_get (rbf_lengthscales hyp) "rbf_lengthscales") as [ls|e0] eqn:E1;
    cbn [bind] in H;
    [|injection H as <-; left; eexists; eapply hyp_get_raise; exact E1].
  destruct (hyp_get (rbf_variance hyp) "rbf_variance") as [s2|e0] eqn:E2;
    cbn [bind] in H;
    [|injection H as <-; left; eexists; eapply hyp_get_raise; exact E2].
  destruct diag_only; [discriminate|].
  set (y' := match y with Some y0 => y0 | None => x end) in H.
  destruct (rdiv x (repmat (row_vector ls) (nrow x) 1)) as [xs|e0] eqn:E3;
    cbn [bind] in H;
    [|injection H as <-; apply casadi_error_kind; eapply binop_raise; exact E3].
  destruct (rdiv y' (repmat (row_vector ls) (nrow y') 1)) as [ys|e0] eqn:E4;
    cbn [bind] in H;
    [|injection H as <-; apply casadi_error_kind; eapply binop_raise; exact E4].
  destruct (_unscaled_dist xs ys) as [r|e0] eqn:E5; cbn [bind] in H;
    [discriminate|].
  injection H as <-. apply casadi_error_kind. eapply unscaled_dist_raise; exact E5.
Qed.

Lemma k_lin_raise x hyp y diag_only e :
  _k_lin x hyp y diag_only = Raise e -> key_or_casadi_error e.
Proof.
  unfold _k_lin. intros H.
  destruct (hyp_get (lin_variances hyp) "lin_variances") as [var|e0] eqn:E1;
    cbn [bind] in H;
    [|injection H as <-; left; eexists; eapply hyp_get_raise; exact E1].
  destruct y as [y|]; cbv beta iota zeta in H;
    match type of H with
    | bind (times ?a ?b) _ = _ =>
        destruct (times a b) as [xv|e0] eqn:E2; cbn [bind] in H;
        [|injection H as <-; apply casadi_error_kind; eapply binop_raise; exact E2]
    end;
    try match type of H with
    | bind (times ?a ?b) _ = _ =>
        destruct (times a b) as [yv|e0] eqn:E3; cbn [bind] in H;
        [|injection H as <-; apply casadi_error_kind; eapply binop_raise; exact E3]
    end;
    apply casadi_error_kind; eapply mtimes_raise; exact H.
Qed.

Lemma k_prod_lin_rbf_raise x hyp y diag_only e :
  _k_prod_lin_rbf x hyp y diag_only = Raise e -> key_or_casadi_error e.
Proof.
  unfold _k_prod_lin_rbf. intros H.
  destruct (hyp_get (lin_variances hyp) "lin_variances") as [var|e0] eqn:E1;
    cbn [bind] in H;
    [|injection H as <-; left; eexists; eapply hyp_get_raise; exact E1].
  destruct (hyp_get (rbf_lengthscales hyp) "rbf_lengthscales") as [ls|e0] eqn:E2;
    cbn [bind] in H;
    [|injection H as <-; left; eexists; eapply hyp_get_raise; exact E2].
  destruct (hyp_get (rbf_variance hyp) "rbf_variance") as [s2|e0] eqn:E3;
    cbn [bind] in H;
    [|injection H as <-; left; eexists; eapply hyp_get_raise; exact E3].
  destruct (_k_rbf x hyp y diag_only) as [kr|e0] eqn:E4; cbn [bind] in H;
    [|injection H as <-; eapply k_rbf_raise; exact E4].
  destruct (_k_lin x hyp y diag_only) as [kl|e0] eqn:E5; cbn [bind] in H;
    [|injection H as <-; eapply k_lin_raise; exact E5].
  apply casadi_error_kind. eapply binop_raise; exact H.
Qed.

(** X8 (the three kernels).  On casadi matrices (two-dimensional [x] and
    [y]) and a [hyp] whose entries are arrays, the kernels raise only a
    [KeyError] (a hyperparameter missing from [hyp]) or a casadi
    [RuntimeError] (a dimension mismatch); on such arguments they never raise
    the [ValueError] that [gp_pred] and [_get_kernel_function] use. *)
Theorem kernels_raise_key_or_casadi_error (kern : kernel) (x : SX) (hyp : Hyp)
    (y : option SX) (diag_only : bool) (e : exn) :
  kern = _k_rbf \/ kern = _k_lin \/ kern = _k_prod_lin_rbf ->
  kern x hyp y diag_only = Raise e ->
  key_or_casadi_error e /\ forall msg, e <> ValueError msg.
Proof.
  intros Hk H.
  assert (He : key_or_casadi_error e).
  { destruct Hk as [-> | [-> | ->]].
    - eapply k_rbf_raise; exact H.
    - eapply k_lin_raise; exact H.
    - eapply k_prod_lin_rbf_raise; exact H. }
  split; [exact He|].
  intros msg ->. destruct He as [[k Hk'] | [m Hm]]; discriminate.
Qed.

(** * Further properties of [gp_pred] and [gp_pred_function] *)

(** The mean returned with [pred_var = False]. *)
Lemma gp_pred_mean_only (x : SX) (kern : kernel) (beta x_train : SX) (hyp : Hyp)
    (k_inv_training : option SX) (k_star : SX) :
  kern x hyp (Some x_train) false = Ok k_star ->
  ncol k_star = nrow beta ->
  exists pred_mu,
    gp_pred x kern beta x_train hyp k_inv_training false = Ok (MeanOnly pred_mu) /\
    is_mat pred_mu (nrow k_star) (ncol beta)
      (fun i j => rsum (ncol k_star) (fun k => elt k_star i k * elt beta k j)).
Proof.
  intros Hk Hb. destruct (mtimes_ok k_star beta Hb) as (mu & Hmu & Hmat).
  exists mu. split; [|exact Hmat].
  unfold gp_pred. rewrite Hk. cbn [bind]. rewrite Hmu. reflexivity.
Qed.

(** X9 ([gp_pred] with [_k_rbf]).  For any number of prediction points,
    [gp_pred] with the RBF kernel and a given m x m [k_inv_training] returns
    the mean [K_star . beta] and the variance vector with entries
    [s2 - (K_star . k_inv_training . K_star^T)_ii], where [K_star] is the RBF
    kernel matrix between [x] and [x_train]. *)
Theorem gp_pred_rbf_mean_variance (x beta x_train : SX) (hyp : Hyp) (k_inv : SX)
    (ls : list R) (s2 : R) :
  rbf_lengthscales hyp = Some ls ->
  rbf_variance hyp = Some s2 ->
  ncol x = length ls ->
  ncol x_train = length ls ->
  nrow beta = nrow x_train ->
  nrow k_inv = nrow x_train -> ncol k_inv = nrow x_train ->
  let K := rbf_value ls s2 x x_train in
  exists pred_mu pred_sigm,
    gp_pred x _k_rbf beta x_train hyp (Some k_inv) true
      = Ok (MeanVar pred_mu pred_sigm) /\
    is_mat pred_mu (nrow x) (ncol beta)
      (fun i j => rsum (nrow x_train) (fun k => K i k * elt beta k j)) /\
    is_mat pred_sigm (nrow x) 1
      (fun i _ =>
         s2 - rsum (nrow x_train)
                (fun j => rsum (nrow x_train) (fun k => K i k * elt k_inv k j)
                          * K i j)).
Proof.
  intros Hl Hv Hx Ht Hb Hi1 Hi2 K.
  destruct (k_rbf_matrix x x_train hyp ls s2 Hl Hv Hx Ht)
    as (k_star & Hk & Hk1 & Hk2 & Hk3).
  destruct (k_rbf_diag_only x hyp None ls s2 Hl Hv) as (k_diag & Hd & Hd1 & Hd2 & Hd3).
  destruct (mtimes_ok k_star beta) as (mu & Hmu & Hmu1 & Hmu2 & Hmu3);
    [congruence|].
  destruct (mtimes_ok k_star k_inv) as (kk & Hkk & Hkk1 & Hkk2 & Hkk3);
    [congruence|].
  destruct (binop_same Rmult kk k_star) as (kkk & Hkkk & Hq1 & Hq2 & Hq3);
    [congruence | congruence|].
  destruct (binop_scalar_l Rminus k_diag (sum2 kkk) Hd1 Hd2)
    as (sg & Hsg & Hs1 & Hs2 & Hs3).
  cbn [nrow ncol sum2] in Hs1, Hs2, Hs3.
  exists mu, sg. split; [|split].
  - unfold gp_pred. rewrite Hk. cbn [bind]. rewrite Hmu. cbn [bind].
    rewrite Hd. cbn [bind]. rewrite Hkk. cbn [bind].
    unfold times. rewrite Hkkk. cbn [bind].
    unfold minus. rewrite Hsg. reflexivity.
  - repeat split; try congruence.
    intros i j Hi Hj. rewrite Hmu3 by congruence. rewrite Hk2.
    apply rsum_ext. intros k Hk'. rewrite Hk3 by assumption. reflexivity.
  - repeat split; try congruence.
    intros i j Hi Hj. rewrite Hs3 by lia.
    rewrite (Hd3 0%nat 0%nat) by lia. f_equal.
    cbn [elt sum2]. rewrite Hq2, Hkk2, Hi2.
    apply rsum_ext. intros c Hc.
    rewrite Hq3 by lia. rewrite Hkk3 by lia. rewrite Hk2.
    rewrite (Hk3 i c) by assumption. f_equal.
    apply rsum_ext. intros k Hk'. rewrite Hk3 by assumption. reflexivity.
Qed.

(** X10 ([gp_pred_function]).  Whenever [gp_pred_function] returns, the keys
    of its dictionary are ["pred_mu"], ["pred_sigma"] exactly when [pred_var]
    is true, and ["jac_mu"] exactly when [compute_grads] is true. *)
Theorem gp_pred_function_keys
    (jacobian : (SX -> result SX) -> SX -> SX) (x x_train beta : SX)
    (hyp : list Hyp) (kern_types : list string)
    (k_inv_training : option (list SX)) (pred_var compute_grads : bool)
    (out_dict : gmap string SX) :
  gp_pred_function jacobian x x_train beta hyp kern_types k_inv_training
                   pred_var compute_grads = Ok out_dict ->
  dom out_dict =
    ({["pred_mu"%string]} ∪ (if pred_var then {["pred_sigma"%string]} else ∅))
    ∪ (if compute_grads then {["jac_mu"%string]} else ∅).
Proof.
  unfold gp_pred_function. intros H.
  destruct (for_range _ _ _) as [a|e]; [|discriminate].
  cbn [bind] in H. injection H as <-.
  destruct pred_var, compute_grads;
    rewrite ?dom_insert_L, dom_empty_L; set_solver.
Qed.

Lemma for_range_ok_each body len :
  forall start a a',
    for_range body (seq start len) a = Ok a' ->
    forall i, (start <= i < start + len)%nat ->
      exists ai ai', body ai i = Ok ai'.
Proof.
  induction len as [|len IH]; intros start a a' H i Hi; [lia|].
  cbn [seq for_range] in H.
  destruct (body a start) as [a1|e] eqn:Hb; [|discriminate].
  cbn [bind] in H.
  destruct (Nat.eq_dec i start) as [->|Hne]; [eauto|].
  apply (IH (S start) a1 a' H). lia.
Qed.

Lemma get_kernel_function_ok kt kern :
  _get_kernel_function kt = Ok kern ->
  kt = "rbf"%string \/ kt = "prod_lin_rbf"%string.
Proof.
  unfold _get_kernel_function. intros H.
  destruct (String.eqb kt "rbf") eqn:E1; [left; apply String.eqb_eq; exact E1|].
  destruct (String.eqb kt "prod_lin_rbf") eqn:E2;
    [right; apply String.eqb_eq; exact E2 | discriminate].
Qed.

Lemma gp_pred_without_inverse x kern beta x_train hyp out :
  gp_pred x kern beta x_train hyp None true <> Ok out.
Proof.
  unfold gp_pred. intros H.
  destruct (kern x hyp (Some x_train) false) as [k_star|]; [|discriminate].
  cbn [bind] in H. destruct (mtimes k_star beta); discriminate.
Qed.

(** X11 ([gp_pred_function]).  [gp_pred_function] returns a dictionary only
    if, for every output [i] below the number of columns of [beta],
    [kern_types[i]] exists and is ["rbf"] or ["prod_lin_rbf"], [hyp[i]]
    exists, and [k_inv_training] either has an [i]-th entry or is [None] with
    [pred_var] false; otherwise it raises. *)
Theorem gp_pred_function_returns_only_if
    (jacobian : (SX -> result SX) -> SX -> SX) (x x_train beta : SX)
    (hyp : list Hyp) (kern_types : list string)
    (k_inv_training : option (list SX)) (pred_var compute_grads : bool)
    (out_dict : gmap string SX) (i : nat) :
  gp_pred_function jacobian x x_train beta hyp kern_types k_inv_training
                   pred_var compute_grads = Ok out_dict ->
  (i < ncol beta)%nat ->
  (exists kt, kern_types !! i = Some kt /\
              (kt = "rbf"%string \/ kt = "prod_lin_rbf"%string)) /\
  is_Some (hyp !! i) /\
  match k_inv_training with
  | Some ks => is_Some (ks !! i)
  | None => pred_var = false
  end.
Proof.
  unfold gp_pred_function. intros H Hi.
  destruct (for_range _ _ _) as [a|e] eqn:Hloop; [|discriminate]. clear H.
  destruct (for_range_ok_each _ _ _ _ _ Hloop i ltac:(lia)) as (ai & ai' & Hb).
  unfold loop_body, py_index in Hb.
  destruct (kern_types !! i) as [kt|]; [|discriminate]. cbn [bind] in Hb.
  destruct (_get_kernel_function kt) as [kern|] eqn:Hkt; [|discriminate].
  cbn [bind] in Hb.
  destruct (hyp !! i) as [h|]; [|discriminate]. cbn [bind] in Hb.
  split; [exists kt; split; [reflexivity | eapply get_kernel_function_ok; exact Hkt]|].
  split; [eauto|].
  destruct k_inv_training as [ks|].
  - destruct (ks !! i) as [k|]; [eauto | discriminate].
  - cbn [bind] in Hb. destruct pred_var; [exfalso | reflexivity].
    destruct (gp_pred x kern (column beta i) x_train h None true) as [out|] eqn:Hg;
      [|discriminate].
    exact (gp_pred_without_inverse _ _ _ _ _ _ Hg).
Qed.

(** X12 ([gp_pred_function]).  When every single-output GP is well formed
    and predicts column vectors with [n] rows at [x], the dictionary holds
    under ["pred_mu"] the n x n_gps matrix whose column [g] is the mean of
    GP number [g], and, with [pred_var] true, under ["pred_sigma"] the
    n x n_gps matrix whose column [g] is the variance of GP number
    [n_gps - 1 - g]: the variances are stacked from the right. *)
Theorem gp_pred_function_column_order
    (jacobian : (SX -> result SX) -> SX -> SX) (x x_train beta : SX)
    (hyp : list Hyp) (kern_types : list string)
    (k_inv_training : option (list SX)) (pred_var : bool)
    (kerns : nat -> kernel) (hyps : nat -> Hyp) (kinvs : nat -> option SX)
    (outs : nat -> gp_out) (n : nat) :
  (forall i, (i < ncol beta)%nat ->
     is_nth_gp hyp kern_types k_inv_training i (kerns i) (hyps i) (kinvs i)) ->
  (forall i, (i < ncol beta)%nat ->
     gp_pred x (kerns i) (column beta i) x_train (hyps i) (kinvs i) pred_var
       = Ok (outs i) /\ out_columns n (outs i)) ->
  (0 < n)%nat -> (0 < ncol beta)%nat ->
  exists (out_dict : gmap string SX) (pred_mu : SX),
    gp_pred_function jacobian x x_train beta hyp kern_types k_inv_training
                     pred_var false = Ok out_dict /\
    out_dict !! "pred_mu" = Some pred_mu /\
    is_mat pred_mu n (ncol beta) (fun q g => elt (out_mean (outs g)) q 0%nat) /\
    (pred_var = true ->
     exists pred_sigma,
       out_dict !! "pred_sigma" = Some pred_sigma /\
       is_mat pred_sigma n (ncol beta)
         (fun q g => elt (out_variance (outs (ncol beta - 1 - g)%nat)) q 0%nat)).
Proof.
  intros Hgp Hout Hn Hg.
  destruct (gp_pred_function_columns jacobian x x_train beta hyp kern_types
              k_inv_training pred_var kerns hyps kinvs outs n Hgp Hout Hn)
    as (d & M & Hd & HM & [_ Hmu] & Hsig).
  exists d, M. split; [exact Hd|]. split; [exact HM|].
  split; [exact (Hmu Hg)|].
  intros Hpv. destruct (Hsig Hpv) as (S & HS & [_ Hs]).
  exists S. split; [exact HS | exact (Hs Hg)].
Qed.

(** X13 ([gp_pred_function], [gp_pred], [_k_rbf]).  For RBF GPs and
    [pred_var = False], entry (q, g) of ["pred_mu"] is
    [sum_k K_g(x_q, x_train_k) * beta_kg], where [K_g] is the RBF kernel with
    the hyperparameters [hyp[g]]. *)
Theorem gp_pred_function_rbf_mean
    (jacobian : (SX -> result SX) -> SX -> SX) (x x_train beta : SX)
    (hyp : list Hyp) (kern_types : list string)
    (lss : nat -> list R) (s2s : nat -> R) :
  (forall i, (i < ncol beta)%nat -> kern_types !! i = Some "rbf"%string) ->
  (forall i, (i < ncol beta)%nat ->
     exists h, hyp !! i = Some h /\
       rbf_lengthscales h = Some (lss i) /\ rbf_variance h = Some (s2s i) /\
       length (lss i) = ncol x) ->
  ncol x_train = ncol x ->
  nrow x_train = nrow beta ->
  (0 < nrow x)%nat -> (0 < ncol beta)%nat ->
  exists (out_dict : gmap string SX) (pred_mu : SX),
    gp_pred_function jacobian x x_train beta hyp kern_types None false false
      = Ok out_dict /\
    out_dict !! "pred_mu" = Some pred_mu /\
    is_mat pred_mu (nrow x) (ncol beta)
      (fun q g =>
         rsum (nrow x_train)
           (fun k => rbf_value (lss g) (s2s g) x x_train q k * elt beta k g)).
Proof.
  intros Hkt Hhyp Hxt Hb Hn Hg.
  set (hyps := fun i => match hyp !! i with
                        | Some h => h
                        | None => mkHyp None None None
                        end).
  set (outs := fun i =>
         match gp_pred x _k_rbf (column beta i) x_train (hyps i) None false with
         | Ok out => out
         | Raise _ => MeanOnly SX_empty
         end).
  assert (Hper : forall i, (i < ncol beta)%nat ->
            exists mu,
              gp_pred x _k_rbf (column beta i) x_train (hyps i) None false
                = Ok (MeanOnly mu) /\
              nrow mu = nrow x /\ ncol mu = 1%nat /\
              forall q, (q < nrow x)%nat ->
                elt mu q 0%nat =
                rsum (nrow x_train)
                  (fun k => rbf_value (lss i) (s2s i) x x_train q k * elt beta k i)).
  { intros i Hi. destruct (Hhyp i Hi) as (h & Hh & Hl & Hv & Hlen).
    assert (Hhi : hyps i = h) by (unfold hyps; rewrite Hh; reflexivity).
    rewrite Hhi.
    destruct (k_rbf_matrix x x_train h (lss i) (s2s i) Hl Hv)
      as (K & HK & HK1 & HK2 & HK3); [congruence | congruence|].
    destruct (gp_pred_mean_only x _k_rbf (column beta i) x_train h None K HK)
      as (mu & Hmu & Hm1 & Hm2 & Hm3); [simpl; congruence|].
    exists mu. split; [exact Hmu|]. split; [congruence|]. split; [exact Hm2|].
    intros q Hq. rewrite Hm3 by (simpl; lia). rewrite HK2.
    apply rsum_ext. intros k Hk. rewrite HK3 by assumption. reflexivity. }
  destruct (gp_pred_function_columns jacobian x x_train beta hyp kern_types
              None false (fun _ => _k_rbf) hyps (fun _ => None) outs (nrow x))
    as (d & M & Hd & HM & [_ Hmu] & _).
  - intros i Hi. destruct (Hhyp i Hi) as (h & Hh & _).
    split; [exists "rbf"%string; split; [apply Hkt; exact Hi | reflexivity]|].
    split; [|reflexivity]. unfold hyps. rewrite Hh. reflexivity.
  - intros i Hi. destruct (Hper i Hi) as (mu & Hmu & Hm1 & Hm2 & _).
    unfold outs. rewrite Hmu. split; [reflexivity|]. split; assumption.
  - exact Hn.
  - exists d, M. split; [exact Hd|]. split; [exact HM|].
    eapply is_mat_ext; [exact (Hmu Hg)|].
    intros q g Hq Hgg. destruct (Hper g Hgg) as (mu & Hmu' & _ & _ & He).
    unfold outs. rewrite Hmu'. cbn [out_mean]. apply He. exact Hq.
Qed.

(** * Properties of the batch-mode means and kernels *)

Section LinearMeanFacts.

Import BatchModes.

Variable Prior : Type.

(** X14 ([LinearMean.forward]).  The mean is linear in its input: on the
    input [a * x + y] it returns [a * forward(x) + forward(y)], with the
    shape of [forward(x)]. *)
Theorem LinearMean_forward_linear (self : LinearMean Prior) (a : R)
    (x y : Tensor3) (fx fy : Tensor2) :
  t3_size0 y = t3_size0 x -> t3_size1 y = t3_size1 x -> t3_size2 y = t3_size2 x ->
  LinearMean_forward Prior self x = Ok fx ->
  LinearMean_forward Prior self y = Ok fy ->
  exists fz,
    LinearMean_forward Prior self
      (mkT3 (t3_size0 x) (t3_size1 x) (t3_size2 x)
            (fun i l j => a * t3_elt x i l j + t3_elt y i l j)) = Ok fz /\
    t2_size0 fz = t2_size0 fx /\ t2_size1 fz = t2_size1 fx /\
    forall i l, t2_elt fz i l = a * t2_elt fx i l + t2_elt fy i l.
Proof.
  intros H0 H1 H2. unfold LinearMean_forward, einsum_ij_ilj_il.
  rewrite H0, H2. cbn [t3_size0 t3_size1 t3_size2 t3_elt].
  destruct (broadcast_size (t2_size0 (matrix Prior self)) (t3_size0 x))
    as [size_i|]; [|discriminate].
  destruct (broadcast_size (t2_size1 (matrix Prior self)) (t3_size2 x))
    as [size_j|]; [|discriminate].
  cbn [bind]. intros Hx Hy. injection Hx as <-. injection Hy as <-.
  eexists. split; [reflexivity|]. cbn [t2_size0 t2_size1 t2_elt].
  split; [reflexivity|]. split; [reflexivity|].
  intros i l. rewrite <- rsum_scal, <- rsum_plus.
  apply rsum_ext. intros j _. ring.
Qed.

(** X15 ([LinearMean.forward], [LinearMean.batch_size]).  When the input has
    [batch_size] batches of [n] feature vectors as long as the rows of the
    matrix, the result is the [batch_size] x [n] tensor whose entry (i, l)
    is the product of row [i] of the matrix with the feature vector
    [x[i, l, :]], whether or not the matrix was registered as a parameter. *)
Theorem LinearMean_forward_entries (m : Tensor2) (trainable : bool)
    (prior : option Prior) (x : Tensor3) :
  let self := LinearMean_init Prior m trainable prior in
  t3_size0 x = LinearMean_batch_size Prior self ->
  t3_size2 x = t2_size1 m ->
  exists out,
    LinearMean_forward Prior self x = Ok out /\
    t2_size0 out = LinearMean_batch_size Prior self /\
    t2_size1 out = t3_size1 x /\
    forall i l, (i < t2_size0 out)%nat ->
      t2_elt out i l = rsum (t2_size1 m) (fun j => t2_elt m i j * t3_elt x i l j).
Proof.
  intros self. assert (Hm : matrix Prior self = m) by (destruct trainable; reflexivity).
  unfold LinearMean_batch_size, LinearMean_forward, einsum_ij_ilj_il.
  rewrite Hm. intros H0 H2. rewrite H0, H2.
  unfold broadcast_size. rewrite !Nat.eqb_refl. cbn [bind].
  eexists. split; [reflexivity|]. cbn [t2_size0 t2_size1 t2_elt].
  split; [reflexivity|]. split; [reflexivity|].
  intros i l Hi. apply rsum_ext. intros j Hj. unfold at_index.
  destruct (t2_size0 m =? 1)%nat eqn:E0; destruct (t2_size1 m =? 1)%nat eqn:E1;
    try apply Nat.eqb_eq in E0; try apply Nat.eqb_eq in E1;
    try (replace i with 0%nat by lia); try (replace j with 0%nat by lia);
    reflexivity.
Qed.

End LinearMeanFacts.

Section BatchFacts.

Import BatchModes.

Variables T L : Type.
Variable torch_stack : list T -> result T.
Variable lazy_diag : L -> result T.
Variable lazy_evaluate : L -> result T.

Lemma zip_means_ok (input : list T) :
  forall (means : list (T -> result T)) (outs : list T),
    zip_means T input means = Ok outs ->
    length outs = Nat.min (length input) (length means) /\
    forall i x mean, input !! i = Some x -> means !! i = Some mean ->
      exists v, mean x = Ok v /\ outs !! i = Some v.
Proof.
  induction input as [|x0 input IH]; intros means outs H.
  - cbn in H. injection H as <-. split; [reflexivity|].
    intros i x mean Hx. discriminate.
  - destruct means as [|m0 means].
    + cbn in H. injection H as <-. split; [reflexivity|].
      intros i x mean _ Hm. discriminate.
    + cbn [zip_means] in H.
      destruct (m0 x0) as [v0|] eqn:Hv; [|discriminate]. cbn [bind] in H.
      destruct (zip_means T input means) as [vs|] eqn:Hz; [|discriminate].
      cbn [bind] in H. injection H as <-.
      destruct (IH means vs Hz) as [Hlen Hget]. split.
      * cbn [length Nat.min]. rewrite Hlen. reflexivity.
      * intros i x mean Hx Hm. destruct i as [|i].
        -- cbn in Hx, Hm. injection Hx as <-. injection Hm as <-.
           exists v0. split; [exact Hv | reflexivity].
        -- cbn in Hx, Hm. exact (Hget i x mean Hx Hm).
Qed.

(** X16 ([BatchMean.forward]).  What [BatchMean.forward] stacks is one slice
    for each pair of the [zip]: as many as the shorter of the input and the
    list of means has, the [i]-th being [base_means[i](input[i])]; batches
    or means beyond that number are ignored without an error. *)
Theorem BatchMean_forward_zip (self : BatchMean T) (input : list T) (out : T) :
  BatchMean_forward T torch_stack self input = Ok out ->
  exists slices,
    torch_stack slices = Ok out /\
    length slices = Nat.min (length input) (length (base_means T self)) /\
    forall i x mean, input !! i = Some x -> base_means T self !! i = Some mean ->
      exists v, mean x = Ok v /\ slices !! i = Some v.
Proof.
  unfold BatchMean_forward. intros H.
  destruct (zip_means T input (base_means T self)) as [slices|] eqn:Hz;
    [|discriminate].
  cbn [bind] in H. exists slices. split; [exact H|].
  exact (zip_means_ok input _ _ Hz).
Qed.

Lemma py_index_ok {A : Type} (l : list A) i a :
  py_index l i = Ok a -> l !! i = Some a.
Proof.
  unfold py_index. destruct (l !! i); [|discriminate].
  intros H. injection H as <-. reflexivity.
Qed.

Lemma enumerate_kernels_ok (kernels : list (T -> T -> result L)) :
  forall (i : nat) (x1 x2 : list T) (ks : list L),
    enumerate_kernels T L i kernels x1 x2 = Ok ks ->
    length ks = length kernels /\
    forall j kernel, kernels !! j = Some kernel ->
      exists a b k,
        x1 !! (i + j)%nat = Some a /\ x2 !! (i + j)%nat = Some b /\
        kernel a b = Ok k /\ ks !! j = Some k.
Proof.
  induction kernels as [|k0 kernels IH]; intros i x1 x2 ks H.
  - cbn in H. injection H as <-. split; [reflexivity|].
    intros j kernel Hk. discriminate.
  - cbn [enumerate_kernels] in H.
    destruct (py_index x1 i) as [a0|] eqn:H1; [|discriminate]. cbn [bind] in H.
    destruct (py_index x2 i) as [b0|] eqn:H2; [|discriminate]. cbn [bind] in H.
    destruct (k0 a0 b0) as [l0|] eqn:Hk0; [|discriminate]. cbn [bind] in H.
    destruct (enumerate_kernels T L (S i) kernels x1 x2) as [ls|] eqn:He;
      [|discriminate].
    cbn [bind] in H. injection H as <-.
    destruct (IH (S i) x1 x2 ls He) as [Hlen Hget]. split.
    + cbn [length]. rewrite Hlen. reflexivity.
    + intros j kernel Hk. destruct j as [|j].
      * cbn in Hk. injection Hk as <-. exists a0, b0, l0.
        rewrite Nat.add_0_r.
        split; [apply py_index_ok; exact H1|].
        split; [apply py_index_ok; exact H2|].
        split; [exact Hk0 | reflexivity].
      * cbn in Hk. destruct (Hget j kernel Hk) as (a & b & k & Ha & Hb & Hkk & Hks).
        exists a, b, k. replace (i + S j)%nat with (S i + j)%nat by lia.
        split; [exact Ha|]. split; [exact Hb|]. split; [exact Hkk | exact Hks].
Qed.

Lemma map_kernels_ok (f : L -> result T) (ks : list L) :
  forall vs, map_kernels T L f ks = Ok vs ->
    length vs = length ks /\
    forall j k, ks !! j = Some k -> exists v, f k = Ok v /\ vs !! j = Some v.
Proof.
  induction ks as [|k0 ks IH]; intros vs H.
  - cbn in H. injection H as <-. split; [reflexivity|].
    intros j k Hk. discriminate.
  - cbn [map_kernels] in H.
    destruct (f k0) as [v0|] eqn:Hf; [|discriminate]. cbn [bind] in H.
    destruct (map_kernels T L f ks) as [vs'|] eqn:Hm; [|discriminate].
    cbn [bind] in H. injection H as <-.
    destruct (IH vs' eq_refl) as [Hlen Hget]. split.
    + cbn [length]. rewrite Hlen. reflexivity.
    + intros j k Hk. destruct j as [|j].
      * cbn in Hk. injection Hk as <-. exists v0. split; [exact Hf | reflexivity].
      * cbn in Hk. exact (Hget j k Hk).
Qed.

(** X17 ([BatchKernel.forward]).  [BatchKernel.forward] returns only if both
    inputs have at least as many batches as there are base kernels; it then
    stacks exactly one slice for each kernel, the [i]-th being the diagonal
    (with [diag]) or the evaluation of [base_kernels[i](x1[i], x2[i])]. *)
Theorem BatchKernel_forward_slices (self : BatchKernel T L) (x1 x2 : list T)
    (diag : bool) (out : T) :
  BatchKernel_forward T L torch_stack lazy_diag lazy_evaluate self x1 x2 diag
    = Ok out ->
  (length (base_kernels T L self) <= length x1)%nat /\
  (length (base_kernels T L self) <= length x2)%nat /\
  exists slices,
    torch_stack slices = Ok out /\
    length slices = length (base_kernels T L self) /\
    forall i kernel, base_kernels T L self !! i = Some kernel ->
      exists a b k v,
        x1 !! i = Some a /\ x2 !! i = Some b /\ kernel a b = Ok k /\
        (if diag then lazy_diag k else lazy_evaluate k) = Ok v /\
        slices !! i = Some v.
Proof.
  unfold BatchKernel_forward. intros H.
  destruct (enumerate_kernels T L 0 (base_kernels T L self) x1 x2) as [ks|] eqn:He;
    [|discriminate].
  cbn [bind] in H.
  destruct (enumerate_kernels_ok _ _ _ _ _ He) as [Hlen Hget].
  set (f := if diag then lazy_diag else lazy_evaluate).
  assert (Hm : exists vs, map_kernels T L f ks = Ok vs /\ torch_stack vs = Ok out).
  { unfold f. destruct diag;
      match type of H with
      | bind ?c _ = _ => destruct c as [vs|]; [|discriminate]
      end; cbn [bind] in H; eauto. }
  destruct Hm as (vs & Hm & Hstack).
  destruct (map_kernels_ok f ks vs Hm) as [Hlen' Hget'].
  assert (Hbound : forall x : list T,
            (forall j kernel, base_kernels T L self !! j = Some kernel ->
               is_Some (x !! j)) ->
            (length (base_kernels T L self) <= length x)%nat).
  { intros x Hx.
    destruct (le_lt_dec (length (base_kernels T L self)) (length x)) as [Hle|Hlt];
      [exact Hle|].
    destruct (lookup_lt_is_Some_2 (base_kernels T L self) (length x) Hlt)
      as [kernel Hk].
    destruct (Hx _ _ Hk) as [a Ha]. apply lookup_lt_Some in Ha. lia. }
  split; [|split].
  - apply Hbound. intros j kernel Hk.
    destruct (Hget j kernel Hk) as (a & _ & _ & Ha & _). eauto.
  - apply Hbound. intros j kernel Hk.
    destruct (Hget j kernel Hk) as (_ & b & _ & _ & Hb & _). eauto.
  - exists vs. split; [exact Hstack|]. split; [congruence|].
    intros i kernel Hk.
    destruct (Hget i kernel Hk) as (a & b & k & Ha & Hb & Hkk & Hks).
    destruct (Hget' i k Hks) as (v & Hv & Hvs).
    exists a, b, k, v. repeat split; try assumption.
    unfold f in Hv. destruct diag; exact Hv.
Qed.

End BatchFacts.

(** * The Hessian of the mean *)

Section HessianFacts.

Import GaussianProcess.

Variable tensor : Type.
Variable torch_stack : tensor -> tensor -> nat -> result tensor.
Variable tensor_item : tensor -> nat -> nat -> result tensor.
Variable hessian_hessian : tensor -> tensor -> result tensor.

(** X18 ([_compute_hessian_mean]).  Once the input is stacked,
    [_compute_hessian_mean] returns an empty stack of Hessians for a model
    without state dimensions, and raises [NameError] on the first pass of its
    loop otherwise: it calls [hessian.hessian], and no scope binds the name
    [hessian]. *)
Theorem compute_hessian_mean_cases (self : GPytorchSSM tensor)
    (states actions inp : tensor) :
  torch_stack states actions 1 = Ok inp ->
  (num_states tensor self = 0%nat ->
   _compute_hessian_mean tensor torch_stack tensor_item hessian_hessian
     (module_globals ∪ GPytorchSSM_scope) self states actions
     = Ok (PyStacked tensor [])) /\
  ((0 < num_states tensor self)%nat ->
   _compute_hessian_mean tensor torch_stack tensor_item hessian_hessian
     (module_globals ∪ GPytorchSSM_scope) self states actions
     = Raise (NameError "hessian")).
Proof.
  intros Hs. split.
  - intros H0. unfold _compute_hessian_mean. rewrite Hs, H0. reflexivity.
  - intros Hpos.
    eapply compute_hessian_mean_name_error;
      [apply hessian_not_visible | exact Hs | exact Hpos].
Qed.

End HessianFacts.

(** * The hypotheses of the further properties hold on concrete inputs *)

Lemma unscaled_dist_euclidean_witness :
  exists r, _unscaled_dist Inputs.x_two Inputs.x = Ok r /\ shape r = (2%nat, 1%nat).
Proof.
  destruct (unscaled_dist_euclidean Inputs.x_two Inputs.x eq_refl)
    as (r & Hr & (H1 & H2 & _) & _).
  exists r. split; [exact Hr|]. unfold shape. rewrite H1, H2. reflexivity.
Defined.

Lemma k_rbf_transpose_witness :
  exists K K',
    _k_rbf Inputs.x_two Inputs.hyp_0 (Some Inputs.x) false = Ok K /\
    _k_rbf Inputs.x Inputs.hyp_0 (Some Inputs.x_two) false = Ok K' /\
    elt K 1%nat 0%nat = elt K' 0%nat 1%nat.
Proof.
  destruct (k_rbf_transpose Inputs.x_two Inputs.x Inputs.hyp_0 [1] 1
              eq_refl eq_refl eq_refl eq_refl)
    as (K & K' & HK & HK' & _ & _ & He).
  exists K, K'. split; [exact HK|]. split; [exact HK'|].
  apply He; cbn; lia.
Defined.

Lemma k_rbf_gram_diagonal_witness :
  exists K,
    _k_rbf Inputs.x_two Inputs.hyp_1 None false = Ok K /\
    elt K 0%nat 0%nat = 2 /\ elt K 1%nat 1%nat = 2.
Proof.
  destruct (k_rbf_gram_diagonal Inputs.x_two Inputs.hyp_1 [1] 2
              eq_refl eq_refl eq_refl)
    as (K & Kd & HK & _ & _ & _ & Hd & _).
  exists K. split; [exact HK|]. split; apply Hd; cbn; lia.
Defined.

Lemma k_rbf_bounded_witness :
  exists K,
    _k_rbf Inputs.x_two Inputs.hyp_1 (Some Inputs.x) false = Ok K /\
    0 <= elt K 1%nat 0%nat <= 2.
Proof.
  destruct (k_rbf_bounded Inputs.x_two Inputs.x Inputs.hyp_1 [1] 2
              eq_refl eq_refl eq_refl eq_refl ltac:(lra))
    as (K & HK & Hb).
  exists K. split; [exact HK|]. apply Hb; cbn; lia.
Defined.

Lemma unit_variance_nonneg :
  forall d, (d < length [1])%nat -> 0 <= nth d [1] 0.
Proof.
  intros d Hd. destruct d as [|d]; [cbn; lra | cbn in Hd; lia].
Defined.

Lemma k_lin_entries_witness :
  exists K,
    _k_lin Inputs.x_two Inputs.hyp_lin (Some Inputs.x_two) false = Ok K /\
    shape K = (2%nat, 2%nat).
Proof.
  destruct (k_lin_entries Inputs.x_two Inputs.x_two Inputs.hyp_lin [1] false
              eq_refl unit_variance_nonneg eq_refl eq_refl)
    as [(K & HK & H1 & H2 & _) _].
  exists K. split; [exact HK|]. unfold shape. rewrite H1, H2. reflexivity.
Defined.

Lemma k_lin_gram_psd_witness :
  exists K,
    _k_lin Inputs.x_two Inputs.hyp_lin None false = Ok K /\
    0 <= quad_form K (fun i => if Nat.eqb i 0 then 2 else -1).
Proof.
  destruct (k_lin_gram_psd Inputs.x_two Inputs.hyp_lin [1]
              (fun i => if Nat.eqb i 0 then 2 else -1)
              eq_refl unit_variance_nonneg eq_refl)
    as (K & HK & _ & _ & Hq).
  exists K. split; [exact HK | exact Hq].
Defined.

Lemma k_prod_lin_rbf_entries_witness :
  exists K,
    _k_prod_lin_rbf Inputs.x_two Inputs.hyp_lin (Some Inputs.x) false = Ok K /\
    shape K = (2%nat, 1%nat).
Proof.
  destruct (k_prod_lin_rbf_entries Inputs.x_two Inputs.x Inputs.hyp_lin [1] [1] 1
              eq_refl eq_refl eq_refl unit_variance_nonneg
              eq_refl eq_refl eq_refl)
    as (K & HK & H1 & H2 & _).
  exists K. split; [exact HK|]. unfold shape. rewrite H1, H2. reflexivity.
Defined.

Lemma kernels_raise_key_or_casadi_error_witness :
  _k_rbf Inputs.x (mkHyp None None None) None false
    = Raise (KeyError "rbf_lengthscales") /\
  key_or_casadi_error (KeyError "rbf_lengthscales").
Proof.
  split; [reflexivity|].
  apply (kernels_raise_key_or_casadi_error _k_rbf Inputs.x (mkHyp None None None)
           None false (KeyError "rbf_lengthscales") (or_introl eq_refl) eq_refl).
Defined.

Lemma gp_pred_rbf_mean_variance_witness :
  exists pred_mu pred_sigm,
    gp_pred Inputs.x_two _k_rbf (column Inputs.beta 0) Inputs.x_train Inputs.hyp_0
      (Some Inputs.k_inv_0) true = Ok (MeanVar pred_mu pred_sigm) /\
    shape pred_sigm = (2%nat, 1%nat).
Proof.
  destruct (gp_pred_rbf_mean_variance Inputs.x_two (column Inputs.beta 0)
              Inputs.x_train Inputs.hyp_0 Inputs.k_inv_0 [1] 1
              eq_refl eq_refl eq_refl eq_refl eq_refl eq_refl eq_refl)
    as (mu & sg & H & _ & H1 & H2 & _).
  exists mu, sg. split; [exact H|]. unfold shape. rewrite H1, H2. reflexivity.
Defined.

Lemma gp_pred_function_keys_witness :
  exists out_dict : gmap string SX,
    gp_pred_function Inputs.jacobian Inputs.x Inputs.x_train Inputs.beta
      Inputs.hyp Inputs.kern_types Inputs.k_inv_training true false = Ok out_dict /\
    dom out_dict = ({["pred_mu"%string]} ∪ {["pred_sigma"%string]}) ∪ ∅.
Proof.
  eexists. split; [reflexivity|].
  apply (gp_pred_function_keys Inputs.jacobian Inputs.x Inputs.x_train Inputs.beta
           Inputs.hyp Inputs.kern_types Inputs.k_inv_training true false).
  reflexivity.
Defined.

Lemma gp_pred_function_returns_only_if_witness :
  exists kt, Inputs.kern_types !! 1%nat = Some kt /\
             (kt = "rbf"%string \/ kt = "prod_lin_rbf"%string).
Proof.
  eapply (gp_pred_function_returns_only_if Inputs.jacobian Inputs.x Inputs.x_train
            Inputs.beta Inputs.hyp Inputs.kern_types Inputs.k_inv_training
            true false _ 1).
  - reflexivity.
  - cbn. lia.
Defined.

Lemma gp_pred_function_column_order_witness :
  exists (out_dict : gmap string SX) (pred_mu : SX),
    gp_pred_function Inputs.jacobian Inputs.x Inputs.x_train Inputs.beta
      Inputs.hyp Inputs.kern_types Inputs.k_inv_training true false = Ok out_dict /\
    out_dict !! "pred_mu" = Some pred_mu /\
    shape pred_mu = (1%nat, 2%nat).
Proof.
  destruct (gp_pred_function_column_order Inputs.jacobian Inputs.x Inputs.x_train
              Inputs.beta Inputs.hyp Inputs.kern_types Inputs.k_inv_training
              true (fun _ => _k_rbf) Inputs.hyps Inputs.kinvs (Inputs.outs true) 1)
    as (d & M & Hd & HM & (H1 & H2 & _) & _).
  - intros i Hi. destruct i as [|[|i]]; [| |cbn in Hi; lia];
      (split; [eexists; split; reflexivity|]); split; try reflexivity;
      eexists; split; reflexivity.
  - intros i Hi. destruct i as [|[|i]]; [| |cbn in Hi; lia];
      (split; [reflexivity|]); repeat split.
  - lia.
  - cbn. lia.
  - exists d, M. split; [exact Hd|]. split; [exact HM|].
    unfold shape. rewrite H1, H2. reflexivity.
Defined.

Lemma gp_pred_function_rbf_mean_witness :
  exists (out_dict : gmap string SX) (pred_mu : SX),
    gp_pred_function Inputs.jacobian Inputs.x Inputs.x_train Inputs.beta
      Inputs.hyp Inputs.kern_types None false false = Ok out_dict /\
    out_dict !! "pred_mu" = Some pred_mu /\
    shape pred_mu = (1%nat, 2%nat).
Proof.
  destruct (gp_pred_function_rbf_mean Inputs.jacobian Inputs.x Inputs.x_train
              Inputs.beta Inputs.hyp Inputs.kern_types
              (fun _ => [1]) (fun i => nth i [1; 2] 1))
    as (d & M & Hd & HM & H1 & H2 & _).
  - intros i Hi. destruct i as [|[|i]]; [reflexivity | reflexivity | cbn in Hi; lia].
  - intros i Hi. destruct i as [|[|i]]; [| |cbn in Hi; lia];
      eexists; repeat split; reflexivity.
  - reflexivity.
  - reflexivity.
  - cbn. lia.
  - cbn. lia.
  - exists d, M. split; [exact Hd|]. split; [exact HM|].
    unfold shape. rewrite H1, H2. reflexivity.
Defined.

Lemma LinearMean_forward_linear_witness :
  exists fz,
    BatchModes.LinearMean_forward unit
      (BatchModes.LinearMean_init unit (BatchModes.mkT2 1 2 (fun _ j => INR j)) false None)
      (BatchModes.mkT3 1 1 2 (fun _ _ _ => 3 * 1 + 2)) = Ok fz /\
    BatchModes.t2_size0 fz = 1%nat.
Proof.
  destruct (BatchModes.LinearMean_forward unit
              (BatchModes.LinearMean_init unit
                 (BatchModes.mkT2 1 2 (fun _ j => INR j)) false None)
              (BatchModes.mkT3 1 1 2 (fun _ _ _ => 1))) as [fx|] eqn:Hx;
    [|discriminate Hx].
  destruct (BatchModes.LinearMean_forward unit
              (BatchModes.LinearMean_init unit
                 (BatchModes.mkT2 1 2 (fun _ j => INR j)) false None)
              (BatchModes.mkT3 1 1 2 (fun _ _ _ => 2))) as [fy|] eqn:Hy;
    [|discriminate Hy].
  destruct (LinearMean_forward_linear unit
              (BatchModes.LinearMean_init unit
                 (BatchModes.mkT2 1 2 (fun _ j => INR j)) false None)
              3 (BatchModes.mkT3 1 1 2 (fun _ _ _ => 1))
              (BatchModes.mkT3 1 1 2 (fun _ _ _ => 2)) fx fy
              eq_refl eq_refl eq_refl Hx Hy) as (fz & Hz & H0 & _).
  exists fz. split; [exact Hz|]. rewrite H0.
  injection Hx as <-. reflexivity.
Defined.

Lemma LinearMean_forward_entries_witness :
  exists out,
    BatchModes.LinearMean_forward unit
      (BatchModes.LinearMean_init unit (BatchModes.mkT2 2 2 (fun i j => INR (i + j)))
         true None)
      (BatchModes.mkT3 2 3 2 (fun _ _ _ => 1)) = Ok out /\
    BatchModes.t2_size0 out = 2%nat /\ BatchModes.t2_size1 out = 3%nat.
Proof.
  destruct (LinearMean_forward_entries unit
              (BatchModes.mkT2 2 2 (fun i j => INR (i + j))) true None
              (BatchModes.mkT3 2 3 2 (fun _ _ _ => 1)) eq_refl eq_refl)
    as (out & Ho & H0 & H1 & _).
  exists out. split; [exact Ho|]. split; [exact H0 | exact H1].
Defined.

Lemma BatchMean_forward_zip_witness :
  exists slices : list nat,
    length slices = 2%nat /\ slices !! 1%nat = Some 21%nat.
Proof.
  destruct (BatchMean_forward_zip nat (fun l => Ok (length l))
              (BatchModes.mkBatchMean nat
                 [fun v => Ok (v + 1)%nat; fun v => Ok (v + 1)%nat])
              [10; 20; 30]%nat 2%nat eq_refl)
    as (slices & _ & Hlen & Hget).
  exists slices. split; [exact Hlen|].
  destruct (Hget 1%nat 20%nat (fun v => Ok (v + 1)%nat) eq_refl eq_refl)
    as (v & Hv & Hs).
  injection Hv as <-. exact Hs.
Defined.

Lemma BatchKernel_forward_slices_witness :
  exists slices : list nat,
    length slices = 2%nat.
Proof.
  destruct (BatchKernel_forward_slices nat nat (fun l => Ok (length l))
              (fun k => Ok k) (fun k => Ok k)
              (BatchModes.mkBatchKernel nat nat
                 [fun a b => Ok (a + b)%nat; fun a b => Ok (a * b)%nat])
              [1; 2; 3]%nat [4; 5]%nat false 2%nat eq_refl)
    as (_ & _ & slices & _ & Hlen & _).
  exists slices. exact Hlen.
Defined.

Lemma compute_hessian_mean_cases_witness :
  GaussianProcess._compute_hessian_mean nat (fun a b _ => Ok (a + b)%nat)
    (fun t _ _ => Ok t) (fun t _ => Ok t)
    (GaussianProcess.module_globals ∪ GaussianProcess.GPytorchSSM_scope)
    (GaussianProcess.mkSSM nat 1 1
       (GaussianProcess.mkGP nat [] 0%nat (fun t => Ok t) (fun t => Ok t)))
    0%nat 0%nat
  = Raise (NameError "hessian").
Proof.
  apply (compute_hessian_mean_cases nat (fun a b _ => Ok (a + b)%nat)
           (fun t _ _ => Ok t) (fun t _ => Ok t)
           (GaussianProcess.mkSSM nat 1 1
              (GaussianProcess.mkGP nat [] 0%nat (fun t => Ok t) (fun t => Ok t)))
           0%nat 0%nat 0%nat eq_refl).
  cbn. lia.
Defined.
